(** * smc-python: session core, link directory and rule fields

    A shallow embedding of [smc/api/session.py] ([Session], [SessionCache])
    and of the field wrappers of [smc/policy/rule_elements.py]
    ([RuleElement], [LogOptions]), with the properties of the link
    directory, the re-authentication counter, version negotiation and the
    tri-state rule fields.

    Python objects mutated in place become explicit state: methods of
    [Session] run in a small state-and-exception monad over the session
    record and the outside world (the HTTP transport, the log, the stored
    configuration).  A raised exception keeps the state reached so far, as
    in Python. *)

From Stdlib Require Import ZArith List String Ascii Bool Lia.
From Stdlib Require Import Floats.SpecFloat.
From Stdlib Require DecimalString DecimalPos.
From stdpp Require Import gmap strings list fin_maps.

Local Open Scope Z_scope.

(** ** Python values *)

(** The values stored in the dictionaries and passed to the methods below.
    A list holds locators (hrefs), which is what rule fields contain. *)
Inductive pyvalue : Type :=
| PNone
| PBool (b : bool)
| PInt (z : Z)
| PFloat (f : spec_float)
| PStr (s : string)
| PList (l : list string).

(** Python truth value testing ([if v:], [not v]). *)
Definition truthy (v : pyvalue) : bool :=
  match v with
  | PNone => false
  | PBool b => b
  | PInt z => negb (z =? 0)
  | PFloat (S754_zero _) => false
  | PFloat _ => true
  | PStr s => negb (String.eqb s "")
  | PList l => match l with [] => false | _ => true end
  end.

(** ** Link directory entries and response bodies *)

(** One entry point, a JSON object read with [entry.get('rel')] and
    [entry.get('href', None)]: either key may be missing. *)
Record entry : Type := Entry { rel : option string; href : option string }.

(** The JSON documents the discovery addresses answer with:
    [{"version": [{"rel": ...}, ...]}] and [{"entry_point": [...]}]. *)
Record json_doc : Type :=
  JsonDoc { j_version : option (list string);
            j_entry_point : option (list entry) }.

Inductive body : Type :=
| NotJson
| Json (d : json_doc).

Record response : Type := Response { status_code : Z; text : body }.

(** ** Messages and exceptions *)

(** A formatted message: literal text interleaved with [str()] of the
    format arguments, in order. *)
Inductive chunk : Type :=
| Lit (s : string)
| StrOf (v : pyvalue)
| TextOf (b : body).

Definition message : Type := list chunk.

(** The exceptions of [smc.api.exceptions] and the built-in ones the code
    can run into.  [RecursionLimit] is the [RuntimeError] Python raises at
    its maximum recursion depth.  [NotModelled] is no Python exception: it
    marks an input this development does not cover (an address with
    regular expression operators in [get_element_filters], a version
    identifier with characters outside plain ASCII in [float]). *)
Inductive exn : Type :=
| SMCConnectionError (msg : message)
| UnsupportedEntryPoint (msg : message)
| ConfigLoadError
| RequestException
| ElementNotFound
| AssertionError
| AttributeError
| TypeError
| KeyError
| ValueError
| RecursionLimit
| NotModelled.

Inductive result (A : Type) : Type :=
| Ok (a : A)
| Raise (e : exn).
Arguments Ok {A} a.
Arguments Raise {A} e.

(** ** State and exception monad *)

Definition M (St A : Type) : Type := St -> result A * St.

Definition ret {St A} (a : A) : M St A := fun st => (Ok a, st).
Definition raise {St A} (e : exn) : M St A := fun st => (Raise e, st).
Definition bind {St A B} (c : M St A) (k : A -> M St B) : M St B :=
  fun st => match c st with
            | (Ok a, st') => k a st'
            | (Raise e, st') => (Raise e, st')
            end.

(** [try: c except RequestException, e: raise SMCConnectionError(e)] *)
Definition wrap_request_exception {St A} (c : M St A) : M St A :=
  fun st => match c st with
            | (Raise RequestException, st') =>
                (Raise (SMCConnectionError [Lit "RequestException"]), st')
            | r => r
            end.

Notation "x <- c ;; k" := (bind c (fun x => k))
  (at level 100, c at next level, right associativity).
Notation "c ;;; k" := (bind c (fun _ => k))
  (at level 100, right associativity).

(** ** The outside world *)

Inductive request : Type :=
| GET (url : message) (timeout : Z)
| POST (url : string) (authenticationkey : string)
| PUT (url : string).

(** What the transport does with one request: an HTTP response, or a
    [requests.exceptions.RequestException]. *)
Inductive outcome : Type :=
| Reply (r : response)
| Unreachable.

Inductive level : Type := DEBUG | INFO | ERROR.

(** The stored connection settings [load_from_file()] returns. *)
Record config : Type :=
  Config { cfg_url : option string; cfg_api_key : option string;
           cfg_api_version : pyvalue; cfg_timeout : option Z }.

(** The world answers requests in order from [pending]; with nothing left
    the server is unreachable.  [sent] and [logged] record, most recent
    first, the requests issued and the lines written to the logger;
    [handles] counts the [requests.session()] objects created. *)
Record World : Type :=
  mkWorld { pending : list outcome;
            sent : list request;
            logged : list (level * message);
            config_file : option config;
            handles : nat }.

Definition world_send (q : request) (w : World) : result response * World :=
  match pending w with
  | Reply r :: rest =>
      (Ok r, mkWorld rest (q :: sent w) (logged w) (config_file w) (handles w))
  | Unreachable :: rest =>
      (Raise RequestException,
       mkWorld rest (q :: sent w) (logged w) (config_file w) (handles w))
  | [] =>
      (Raise RequestException,
       mkWorld [] (q :: sent w) (logged w) (config_file w) (handles w))
  end.

Definition world_log (l : level) (m : message) (w : World) : World :=
  mkWorld (pending w) (sent w) ((l, m) :: logged w) (config_file w) (handles w).

Definition world_new_handle (w : World) : nat * World :=
  (handles w,
   mkWorld (pending w) (sent w) (logged w) (config_file w) (S (handles w))).

(** Operations on a state paired with the world. *)
Definition send {X} (q : request) : M (X * World) response :=
  fun '(x, w) => let '(r, w') := world_send q w in (r, (x, w')).

Definition logger {X} (l : level) (m : message) : M (X * World) unit :=
  fun '(x, w) => (Ok tt, (x, world_log l m w)).

Definition requests_session {X} : M (X * World) nat :=
  fun '(x, w) => let '(h, w') := world_new_handle w in (Ok h, (x, w')).

Definition load_from_file {X} : M (X * World) config :=
  fun '(x, w) => match config_file w with
                 | Some c => (Ok c, (x, w))
                 | None => (Raise ConfigLoadError, (x, w))
                 end.

Definition self {X} : M (X * World) X := fun '(x, w) => (Ok x, (x, w)).
Definition set_self {X} (f : X -> X) : M (X * World) unit :=
  fun '(x, w) => (Ok tt, (f x, w)).

(** ** float() and max() *)

Definition prec : Z := 53.
Definition emax : Z := 1024.

Definition digit_of (c : ascii) : option Z :=
  let n := Z.of_nat (nat_of_ascii c) in
  if (48 <=? n) && (n <=? 57) then Some (n - 48) else None.

(** Value of a run of decimal digits after [acc]; [None] on any other
    character. *)
Fixpoint digits_value (acc : Z) (l : list ascii) : option Z :=
  match l with
  | [] => Some acc
  | c :: l' => match digit_of c with
               | Some d => digits_value (10 * acc + d) l'
               | None => None
               end
  end.

(** Split at the first ["."]. *)
Fixpoint split_point (l : list ascii) : list ascii * option (list ascii) :=
  match l with
  | [] => ([], None)
  | c :: l' =>
      if Ascii.eqb c "."%char then ([], Some l')
      else let '(a, b) := split_point l' in (c :: a, b)
  end.

Definition strip_sign (l : list ascii) : bool * list ascii :=
  match l with
  | c :: l' => if Ascii.eqb c "-"%char then (true, l')
               else if Ascii.eqb c "+"%char then (false, l')
               else (false, l)
  | [] => (false, [])
  end.

(** The blanks [float] removes at both ends of its argument: tab, line
    feed, vertical tab, form feed, carriage return and space. *)
Definition is_space (c : ascii) : bool :=
  let n := Z.of_nat (nat_of_ascii c) in
  ((9 <=? n) && (n <=? 13)) || (n =? 32).

Fixpoint lstrip (l : list ascii) : list ascii :=
  match l with
  | c :: l' => if is_space c then lstrip l' else l
  | [] => []
  end.

Definition strip (l : list ascii) : list ascii :=
  rev (lstrip (rev (lstrip l))).

Definition lower (c : ascii) : ascii :=
  let n := nat_of_ascii c in
  if ((65 <=? n) && (n <=? 90))%nat then ascii_of_nat (n + 32) else c.

(** Characters whose reading by [float] is left out of the model: the
    codes from 128 on (digits and blanks of other scripts are accepted),
    the separators 28 to 31 (blanks of a unicode string only) and the
    underscore (accepted between digits by later versions of Python). *)
Definition unmodelled_char (c : ascii) : bool :=
  let n := Z.of_nat (nat_of_ascii c) in
  (128 <=? n) || ((28 <=? n) && (n <=? 31)) || (n =? 95).

(** Split at the first [e] or [E]. *)
Fixpoint split_exponent (l : list ascii) : list ascii * option (list ascii) :=
  match l with
  | [] => ([], None)
  | c :: l' =>
      if Ascii.eqb (lower c) "e"%char then ([], Some l')
      else let '(a, b) := split_exponent l' in (c :: a, b)
  end.

(** [digits [. digits]] with at least one digit, as integer mantissa [m]
    and number of fraction digits [k]: the digits denote [m / 10^k]. *)
Definition parse_decimal (l : list ascii) : option (Z * nat) :=
  let '(ip, fp) := split_point l in
  let fp := match fp with Some f => f | None => [] end in
  match ip ++ fp with
  | [] => None
  | ds => match digits_value 0 ds with
          | Some m => Some (m, length fp)
          | None => None
          end
  end.

(** The exponent part: absent, or [[sign] digits] with at least one
    digit. *)
Definition parse_exponent (x : option (list ascii)) : option Z :=
  match x with
  | None => Some 0
  | Some l =>
      let '(sg, ds) := strip_sign l in
      match ds with
      | [] => None
      | _ => match digits_value 0 ds with
             | Some x => Some (if sg then - x else x)
             | None => None
             end
      end
  end.

(** The binary64 nearest to [m * 10^e] (round to nearest even), which is
    what [float] returns for a decimal number: the IEEE 754 quotient of
    the two integers [m * 10^max(e,0)] and [10^max(-e,0)]. *)
Definition float_of_decimal (sg : bool) (m e : Z) : spec_float :=
  match m with
  | Z.pos p =>
      SFdiv prec emax
            (S754_finite sg (p * Z.to_pos (10 ^ Z.max 0 e)) 0)
            (S754_finite false (Z.to_pos (10 ^ Z.max 0 (- e))) 0)
  | _ => S754_zero sg
  end.

(** [float(s)] on a string: blanks at both ends are dropped, then comes
    an optional sign and either [inf], [infinity] or [nan] in any case,
    or a decimal number [digits [. digits]] with an optional exponent;
    any other string is a [ValueError].  A string holding a character of
    [unmodelled_char] is outside the model. *)
Definition py_float (s : string) : result spec_float :=
  let l := list_ascii_of_string s in
  if existsb unmodelled_char l then Raise NotModelled
  else
    let '(sg, body) := strip_sign (strip l) in
    let word := string_of_list_ascii (map lower body) in
    if String.eqb word "inf" || String.eqb word "infinity"
    then Ok (S754_infinity sg)
    else if String.eqb word "nan" then Ok S754_nan
    else
      let '(mant, ex) := split_exponent body in
      match parse_decimal mant, parse_exponent ex with
      | Some (m, k), Some x => Ok (float_of_decimal sg m (x - Z.of_nat k))
      | _, _ => Raise ValueError
      end.

(** [[float(i) for i in versions]] *)
Fixpoint floats_of (l : list string) : result (list spec_float) :=
  match l with
  | [] => Ok []
  | s :: l' => match py_float s with
               | Ok f => match floats_of l' with
                         | Ok fs => Ok (f :: fs)
                         | Raise e => Raise e
                         end
               | Raise e => Raise e
               end
  end.

(** [max]: the running maximum is replaced by an item that compares
    greater ([item > maxitem]). *)
Fixpoint max_from (cur : spec_float) (l : list spec_float) : spec_float :=
  match l with
  | [] => cur
  | x :: l' => max_from (if SFltb cur x then x else cur) l'
  end.

Definition py_max (l : list spec_float) : result spec_float :=
  match l with
  | [] => Raise ValueError
  | x :: l' => Ok (max_from x l')
  end.

(** ** Regular expressions of [get_element_filters] *)

(** The pattern is the address of [elements] followed by a slash and a
    group capturing any run of characters (dot, star).  Of the
    regular expression syntax an address can contain, literal characters
    and [.] are modelled; any other operator character puts the pattern
    outside the model. *)
Inductive atom : Type :=
| AChar (c : ascii)
| AAny.

Definition newline : ascii := ascii_of_nat 10.

Definition is_operator (c : ascii) : bool :=
  existsb (Ascii.eqb c) (list_ascii_of_string "\^$*+?{}[]|()").

Fixpoint compile_address (l : list ascii) : option (list atom) :=
  match l with
  | [] => Some [AChar "/"%char]
  | c :: l' =>
      if is_operator c then None
      else match compile_address l' with
           | Some p => Some ((if Ascii.eqb c "."%char then AAny else AChar c) :: p)
           | None => None
           end
  end.

Definition atom_matches (a : atom) (c : ascii) : bool :=
  match a with
  | AChar c' => Ascii.eqb c' c
  | AAny => negb (Ascii.eqb c newline)
  end.

(** The pattern's fixed part matched at the head of [s]: what follows. *)
Fixpoint match_here (p : list atom) (s : list ascii) : option (list ascii) :=
  match p, s with
  | [], _ => Some s
  | a :: p', c :: s' => if atom_matches a c then match_here p' s' else None
  | _ :: _, [] => None
  end.

(** The capturing group: the longest run without a newline. *)
Fixpoint rest_of_line (s : list ascii) : list ascii :=
  match s with
  | [] => []
  | c :: s' => if Ascii.eqb c newline then [] else c :: rest_of_line s'
  end.

(** [re.finditer]: leftmost matches, each search resuming where the
    previous match ended; [skip] characters belong to the previous match.
    Yields group 1 of every match. *)
Fixpoint scan (p : list atom) (s : list ascii) (skip : nat) : list string :=
  match s with
  | [] => []
  | _ :: s' =>
      match skip with
      | S k => scan p s' k
      | O => match match_here p s with
             | Some rest =>
                 let g := rest_of_line rest in
                 string_of_list_ascii g
                   :: scan p s' (Nat.pred (length p + length g))
             | None => scan p s' O
             end
      end
  end.

Definition finditer_group1 (address : string) (s : string)
  : option (list string) :=
  match compile_address (list_ascii_of_string address) with
  | Some p => Some (scan p (list_ascii_of_string s) O)
  | None => None
  end.

(** ** SessionCache *)

Record SessionCache : Type :=
  mkCache { api_entry : option (list entry); api_version : pyvalue }.

Module SessionCache.

Definition __init__ : SessionCache := mkCache None PNone.

(** The [for] loop of [get_entry_href]: [href] is overwritten at every
    entry whose [rel] equals [verb]. *)
Definition scan_entries (verb : string) (entries : list entry)
  : option string :=
  fold_left
    (fun found e =>
       match rel e with
       | Some r => if String.eqb r verb then href e else found
       | None => found
       end)
    entries None.

Definition unsupported_message (verb : string) (version : pyvalue)
  : message :=
  [Lit "The specified entry point '"; StrOf (PStr verb);
   Lit "' was not found in this version of the SMC API. Check the element documentation to determine the correct version and specify the api_version parameter during session.login() if necessary. Current api version is ";
   StrOf version].

Definition get_entry_href (c : SessionCache) (verb : string)
  : result string :=
  match api_entry c with
  | Some (e :: es) =>
      match scan_entries verb (e :: es) with
      | Some h =>
          if String.eqb h ""
          then Raise (UnsupportedEntryPoint
                        (unsupported_message verb (api_version c)))
          else Ok h
      | None => Raise (UnsupportedEntryPoint
                         (unsupported_message verb (api_version c)))
      end
  | _ => Raise (SMCConnectionError
                  [Lit "No entry points found, it is likely there is no valid login session."])
  end.

(** The comprehension of [get_element_filters] over the entries:
    [re.finditer(regex, None)] is a [TypeError]. *)
Fixpoint collect_filters (address : string) (entries : list entry)
  : result (list string) :=
  match entries with
  | [] => Ok []
  | ep :: rest =>
      match href ep with
      | None => Raise TypeError
      | Some h =>
          match finditer_group1 address h with
          | None => Raise NotModelled
          | Some gs =>
              match collect_filters address rest with
              | Ok more => Ok (gs ++ more)
              | Raise e => Raise e
              end
          end
      end
  end.

Definition get_element_filters (c : SessionCache) : result (list string) :=
  match get_entry_href c "elements" with
  | Raise e => Raise e
  | Ok address =>
      collect_filters address
        (match api_entry c with Some es => es | None => [] end)
  end.

Definition get_all_entry_points (c : SessionCache) : option (list entry) :=
  api_entry c.

Definition set_api_version (v : pyvalue) (c : SessionCache) : SessionCache :=
  mkCache (api_entry c) v.
Definition set_api_entry (es : list entry) (c : SessionCache) : SessionCache :=
  mkCache (Some es) (api_version c).

Definition json_loads (b : body) : M (SessionCache * World) json_doc :=
  match b with
  | Json d => ret d
  | NotJson => raise ValueError
  end.

Definition of_result {A} (r : result A) : M (SessionCache * World) A :=
  match r with
  | Ok a => ret a
  | Raise e => raise e
  end.

Definition of_key {A} (o : option A) : M (SessionCache * World) A :=
  match o with
  | Some a => ret a
  | None => raise KeyError
  end.

(** The version query of [get_api_entry], run when [api_version is None]. *)
Definition discover_version (url : string) (timeout : Z)
  : M (SessionCache * World) pyvalue :=
  r <- send (GET [Lit url; Lit "/api"] timeout) ;;
  j <- json_loads (text r) ;;
  versions <- of_key (j_version j) ;;
  versions <- of_result (floats_of versions) ;;
  m <- of_result (py_max versions) ;;
  ret (PFloat m).

Definition get_api_entry (url : string) (api_version : pyvalue)
           (timeout : Z) : M (SessionCache * World) unit :=
  wrap_request_exception
    (api_version <- match api_version with
                    | PNone => discover_version url timeout
                    | v => ret v
                    end ;;
     logger INFO [Lit "Using SMC API version: "; StrOf api_version] ;;;
     r <- send (GET [Lit url; Lit "/"; StrOf api_version; Lit "/api"]
                    timeout) ;;
     j <- (if status_code r =? 200 then
             j <- json_loads (text r) ;;
             set_self (set_api_version api_version) ;;;
             logger DEBUG
               [Lit "Successfully retrieved API entry points from SMC"] ;;;
             ret j
           else
             raise (SMCConnectionError
                      [Lit "Error occurred during initial api request, json was not returned. Return data was: ";
                       TextOf (text r)])) ;;
     es <- of_key (j_entry_point j) ;;
     set_self (set_api_entry es)).

End SessionCache.

(** ** Session *)

(** [_session] and [_connection] hold the handle of the
    [requests.session()] object the login created; [http_401] is the
    private counter [__http_401]. *)
Record Session : Type :=
  mkSession { _cache : option SessionCache;
              _session : option nat;
              _connection : option nat;
              _url : option string;
              _api_key : option string;
              _timeout : Z;
              http_401 : Z }.

Module Session.

Definition __init__ : Session :=
  mkSession None None None None None 10 0.

Definition set_cache (c : SessionCache) (s : Session) : Session :=
  mkSession (Some c) (_session s) (_connection s) (_url s) (_api_key s)
            (_timeout s) (http_401 s).
Definition set_credentials (url api_key : string) (s : Session) : Session :=
  mkSession (_cache s) (_session s) (_connection s) (Some url)
            (Some api_key) (_timeout s) (http_401 s).
Definition set_timeout (t : Z) (s : Session) : Session :=
  mkSession (_cache s) (_session s) (_connection s) (_url s) (_api_key s)
            t (http_401 s).
Definition set_session (h : nat) (s : Session) : Session :=
  mkSession (_cache s) (Some h) (_connection s) (_url s) (_api_key s)
            (_timeout s) (http_401 s).
Definition set_connection (h : nat) (s : Session) : Session :=
  mkSession (_cache s) (_session s) (Some h) (_url s) (_api_key s)
            (_timeout s) (http_401 s).
Definition count_401 (s : Session) : Session :=
  mkSession (_cache s) (_session s) (_connection s) (_url s) (_api_key s)
            (_timeout s) (http_401 s + 1).

(** The [cache] property: the cache is created on first use.  [on_cache]
    runs a method of the cache on it. *)
Definition cache (s : Session) : SessionCache :=
  match _cache s with
  | Some c => c
  | None => SessionCache.__init__
  end.

Definition on_cache {A} (c : M (SessionCache * World) A)
  : M (Session * World) A :=
  fun '(s, w) =>
    let '(r, (c', w')) := c (cache s, w) in (r, (set_cache c' s, w')).

Definition of_result {A} (r : result A) : M (SessionCache * World) A :=
  SessionCache.of_result r.

(** The [api_version] property. *)
Definition api_version_ : M (Session * World) pyvalue :=
  on_cache (c <- self ;; ret (api_version c)).

Definition nonempty (o : option string) : bool :=
  match o with
  | Some s => negb (String.eqb s "")
  | None => false
  end.

Definition of_attr {A} (o : option A) : M (Session * World) A :=
  match o with
  | Some a => ret a
  | None => raise TypeError
  end.

(** [login] from [self.cache.get_api_entry] to its end.  [self.url] and
    [self.api_key] are set whenever this point is reached. *)
Definition login_session (api_version : pyvalue) : M (Session * World) unit :=
  s <- self ;;
  url <- of_attr (_url s) ;;
  on_cache (SessionCache.get_api_entry url api_version (_timeout s)) ;;;
  h <- requests_session ;;
  address <- on_cache (c <- self ;;
                       of_result (SessionCache.get_entry_href c "login")) ;;
  s <- self ;;
  api_key <- of_attr (_api_key s) ;;
  r <- send (POST address api_key) ;;
  if status_code r =? 200 then
    set_self (set_session h) ;;;
    logger DEBUG [Lit "Login succeeded and session retrieved: ";
                  StrOf (PInt (Z.of_nat h))] ;;;
    set_self (set_connection h)
  else
    raise (SMCConnectionError [Lit "Login failed, HTTP status code: ";
                               StrOf (PInt (status_code r))]).

(** The first branch of [login]: address and credential are given. *)
Definition login_with (url api_key : string) (api_version : pyvalue)
           (timeout : option Z) : M (Session * World) unit :=
  set_self (set_credentials url api_key) ;;;
  match timeout with
  | Some t => if t =? 0 then ret tt else set_self (set_timeout t)
  | None => ret tt
  end ;;;
  login_session api_version.

(** [self.login( **load_from_file())]: the nested login with the stored
    settings.  Stored settings that again lack an address or a
    credential make the call recurse without end, which Python stops at
    its recursion limit. *)
Definition login_stored : M (Session * World) unit :=
  cfg <- load_from_file ;;
  match cfg_url cfg, cfg_api_key cfg with
  | Some cu, Some ck =>
      if nonempty (cfg_url cfg) && nonempty (cfg_api_key cfg) then
        login_with cu ck (cfg_api_version cfg) (cfg_timeout cfg)
      else raise RecursionLimit
  | _, _ => raise RecursionLimit
  end.

(** [login].  Without address or credential it logs in with the stored
    settings and then goes on to its own discovery and login request. *)
Definition login (url api_key : option string) (api_version : pyvalue)
           (timeout : option Z) : M (Session * World) unit :=
  match url, api_key with
  | Some u, Some k =>
      if nonempty url && nonempty api_key then
        login_with u k api_version timeout
      else
        login_stored ;;; login_session api_version
  | _, _ =>
      login_stored ;;; login_session api_version
  end.

Definition logout : M (Session * World) unit :=
  s <- self ;;
  match _session s with
  | Some _ =>
      address <- on_cache (c <- self ;;
                           of_result (SessionCache.get_entry_href c "logout")) ;;
      r <- send (PUT address) ;;
      if status_code r =? 204 then
        logger INFO [Lit "Logged out successfully"]
      else if status_code r =? 401 then
        logger ERROR [Lit "Logout failed, session has already expired, status code: ";
                      StrOf (PInt (status_code r))]
      else
        logger ERROR [Lit "Logout failed, status code: ";
                      StrOf (PInt (status_code r))]
  | None => ret tt
  end.

Definition unauthorized_note : message :=
  [Lit "Session http_unauthorized called, received an HTTP 401 unauthorized"].

Definition too_many_401 : message :=
  [Lit "Unauthorized. Too many HTTP 401 requests received."].

Definition http_unauthorized : M (Session * World) unit :=
  set_self count_401 ;;;
  s <- self ;;
  match _session s with
  | Some _ =>
      logger INFO unauthorized_note ;;;
      if 2 <=? http_401 s then
        raise (SMCConnectionError too_many_401)
      else
        v <- api_version_ ;;
        login (_url s) (_api_key s) v None
  | None =>
      raise (SMCConnectionError
               [Lit "No previous SMC session found. This will require a new login attempt"])
  end.

Definition element_filters : M (Session * World) (list string) :=
  on_cache (c <- self ;; of_result (SessionCache.get_element_filters c)).

End Session.

(** ** NestedDict *)

(** Modelled from the spec: [smc.base.structs.NestedDict], the base class
    of the rule fields, is not under src/.  The spec's data model has it
    as a mapping from field name to value, so it is a dictionary with the
    Python mapping operations [clear], [update], [get] and [in]. *)
Module NestedDict.

Definition clear (d : gmap string pyvalue) : gmap string pyvalue := ∅.

Definition update (k : string) (v : pyvalue) (d : gmap string pyvalue)
  : gmap string pyvalue := <[k := v]> d.

(** [self.get(k)], [None] when the key is missing. *)
Definition get (k : string) (d : gmap string pyvalue) : pyvalue :=
  match d !! k with
  | Some v => v
  | None => PNone
  end.

(** [k in self] *)
Definition contains (k : string) (d : gmap string pyvalue) : bool :=
  match d !! k with
  | Some _ => true
  | None => false
  end.

End NestedDict.

(** ** Items of a rule field *)

(** What [add] and [add_many] are given: a locator string, or an element
    whose [href] lookup yields a locator or fails with [ElementNotFound]. *)
Inductive item : Type :=
| Locator (href : string)
| Element (href : option string).

(** Modelled from the spec: [smc.base.util.element_resolver] is not under
    src/.  It resolves an item to its locator, accepting an already
    resolved reference or a raw locator string; a failed resolution raises
    [ElementNotFound]. *)
Definition element_resolver (data : item) : result string :=
  match data with
  | Locator h => Ok h
  | Element (Some h) => Ok h
  | Element None => Raise ElementNotFound
  end.

(** Modelled from the spec: [element_resolver(data, do_raise=False)] on a
    list resolves all items, with unresolved locators dropped. *)
Fixpoint element_resolver_list (data : list item) : list string :=
  match data with
  | [] => []
  | i :: rest =>
      match element_resolver i with
      | Ok h => h :: element_resolver_list rest
      | Raise _ => element_resolver_list rest
      end
  end.

(** The argument of [add_many], which asserts that it is a list. *)
Inductive add_many_arg : Type :=
| Items (l : list item)
| NotAList (i : item).

(** ** RuleElement *)

Inductive field : Type := Destination | Source | Service.

Definition typeof (f : field) : string :=
  match f with
  | Destination => "dst"
  | Source => "src"
  | Service => "service"
  end.

Module RuleElement.

Import NestedDict.

(** The constructors of the three fields with [rule=None]. *)
Definition __init__ : gmap string pyvalue := {["none" := PBool true]}.

Definition is_any (d : gmap string pyvalue) : bool := contains "any" d.
Definition is_none (d : gmap string pyvalue) : bool := contains "none" d.

Definition set_any (d : gmap string pyvalue) : gmap string pyvalue :=
  update "any" (PBool true) (clear d).

Definition set_none (d : gmap string pyvalue) : gmap string pyvalue :=
  update "none" (PBool true) (clear d).

(** The guard opening [add] and [add_many]. *)
Definition start_list (f : field) (d : gmap string pyvalue)
  : gmap string pyvalue :=
  if is_none d || is_any d
  then <[typeof f := PList []]> (clear d)
  else d.

(** [add].  [self.get(self.typeof).append] is looked up before the
    argument is resolved; only a list has [append]. *)
Definition add (f : field) (data : item) (d : gmap string pyvalue)
  : result unit * gmap string pyvalue :=
  let d1 := start_list f d in
  match get (typeof f) d1 with
  | PList l =>
      match element_resolver data with
      | Ok h => (Ok tt, <[typeof f := PList (l ++ [h])]> d1)
      | Raise ElementNotFound => (Ok tt, d1)
      | Raise e => (Raise e, d1)
      end
  | _ => (Raise AttributeError, d1)
  end.

Definition add_many (f : field) (data : add_many_arg)
           (d : gmap string pyvalue)
  : result unit * gmap string pyvalue :=
  match data with
  | NotAList _ => (Raise AssertionError, d)
  | Items l =>
      let d1 := start_list f d in
      (Ok tt, <[typeof f := PList (element_resolver_list l)]> d1)
  end.

(** Iterating the stored value in a comprehension. *)
Definition iterate (v : pyvalue) : result (list string) :=
  match v with
  | PList l => Ok l
  | PStr s => Ok (map (fun c => String c EmptyString) (list_ascii_of_string s))
  | _ => Raise TypeError
  end.

(** [all_as_href]; [None] is Python's [None], returned when the method
    falls off its end. *)
Definition all_as_href (f : field) (d : gmap string pyvalue)
  : result (option (list string)) :=
  if negb (is_any d) && negb (is_none d) then
    match iterate (get (typeof f) d) with
    | Ok l => Ok (Some l)
    | Raise e => Raise e
    end
  else Ok None.

(** [all]; [Element.from_href(href)] is the handle [Element (Some href)]. *)
Definition all (f : field) (d : gmap string pyvalue)
  : result (list item) :=
  if negb (is_any d) && negb (is_none d) then
    match iterate (get (typeof f) d) with
    | Ok l => Ok (map (fun h => Element (Some h)) l)
    | Raise e => Raise e
    end
  else Ok [].

End RuleElement.

(** ** LogOptions *)

Module LogOptions.

Import NestedDict.

(** The constructor with [rule=None]. *)
Definition __init__ : gmap string pyvalue :=
  <["log_accounting_info_mode" := PBool false]>
  (<["log_closing_mode" := PBool true]>
  (<["log_level" := PStr "undefined"]>
  (<["log_payload_additionnal" := PBool false]>
  (<["log_payload_excerpt" := PBool false]>
  (<["log_payload_record" := PBool false]>
  (<["log_severity" := PInt (-1)]> ∅)))))).

Definition log_accounting_info_mode (d : gmap string pyvalue) : pyvalue :=
  get "log_accounting_info_mode" d.

Definition set_log_accounting_info_mode (value : pyvalue)
           (d : gmap string pyvalue) : gmap string pyvalue :=
  update "log_accounting_info_mode" value d.

Definition log_level (d : gmap string pyvalue) : pyvalue :=
  get "log_level" d.

Definition log_levels : list string :=
  ["none"; "stored"; "transient"; "essential"; "alert"].

(** [value in ('none', 'stored', 'transient', 'essential', 'alert')] *)
Definition allowed_level (value : pyvalue) : bool :=
  match value with
  | PStr s => existsb (String.eqb s) log_levels
  | _ => false
  end.

Definition set_log_level (value : pyvalue) (d : gmap string pyvalue)
  : gmap string pyvalue :=
  let d1 := if allowed_level value then update "log_level" value d else d in
  if negb (truthy (log_accounting_info_mode d1))
  then set_log_accounting_info_mode (PBool true) d1
  else d1.

Definition logging_modes : list string := ["off"; "default"; "enforced"].

(** [value in ('off', 'default', 'enforced')] *)
Definition allowed_mode (value : pyvalue) : bool :=
  match value with
  | PStr s => existsb (String.eqb s) logging_modes
  | _ => false
  end.

Definition application_logging (d : gmap string pyvalue) : pyvalue :=
  get "application_logging" d.

Definition set_application_logging (value : pyvalue)
           (d : gmap string pyvalue) : gmap string pyvalue :=
  if allowed_mode value then update "application_logging" value d else d.

Definition user_logging (d : gmap string pyvalue) : pyvalue :=
  get "user_logging" d.

Definition set_user_logging (value : pyvalue) (d : gmap string pyvalue)
  : gmap string pyvalue :=
  if allowed_mode value then update "user_logging" value d else d.

End LogOptions.

(** ** Action *)

Module Action.

Import NestedDict.

Definition scan_modes : list string := ["on"; "off"; "undefined"].

(** [value in ('on', 'off', 'undefined')] *)
Definition allowed_scan (value : pyvalue) : bool :=
  match value with
  | PStr s => existsb (String.eqb s) scan_modes
  | _ => false
  end.

Definition scan_detection (d : gmap string pyvalue) : pyvalue :=
  get "scan_detection" d.

Definition set_scan_detection (value : pyvalue) (d : gmap string pyvalue)
  : gmap string pyvalue :=
  if allowed_scan value then update "scan_detection" value d else d.

End Action.

(** ** ConnectionTracking *)

(** What the [mss_enforced_min_max] setter is given: a tuple of any
    length, or a value that is no tuple. *)
Inductive mss_arg : Type :=
| MssTuple (items : list pyvalue)
| MssOther (v : pyvalue).

Module ConnectionTracking.

Import NestedDict.

Definition mss_enforced_min_max (d : gmap string pyvalue)
  : pyvalue * pyvalue :=
  (get "mss_enforced_min" d, get "mss_enforced_max" d).

(** The setter unpacks a tuple into [minimum, maximum], a [ValueError]
    for a tuple of another length, and ignores any other value. *)
Definition set_mss_enforced_min_max (value : mss_arg)
           (d : gmap string pyvalue)
  : result unit * gmap string pyvalue :=
  match value with
  | MssTuple [minimum; maximum] =>
      (Ok tt,
       update "mss_enforced_max" maximum (update "mss_enforced_min" minimum d))
  | MssTuple _ => (Raise ValueError, d)
  | MssOther _ => (Ok tt, d)
  end.

End ConnectionTracking.

(** ** Vocabulary of the statements *)

(** *** Link directory *)

(** The entry carries the relation [verb]. *)
Definition has_rel (verb : string) (e : entry) : bool :=
  match rel e with
  | Some r => String.eqb r verb
  | None => false
  end.

(** The last entry of the directory that carries the relation. *)
Definition last_with_rel (verb : string) (es : list entry) : option entry :=
  last (List.filter (has_rel verb) es).

Fixpoint strip_prefix (p s : list ascii) : option (list ascii) :=
  match p, s with
  | [], _ => Some s
  | a :: p', c :: s' => if Ascii.eqb a c then strip_prefix p' s' else None
  | _ :: _, [] => None
  end.

(** [Some suffix] when the address [h] reads [address/suffix]. *)
Definition suffix_under (address h : string) : option string :=
  match strip_prefix (list_ascii_of_string address ++ ["/"%char])
                     (list_ascii_of_string h) with
  | Some rest => Some (string_of_list_ascii rest)
  | None => None
  end.

(** The suffixes of the entries under [address], in directory order. *)
Definition suffixes_under (address : string) (es : list entry) : list string :=
  omap (fun e => match href e with
                 | Some h => suffix_under address h
                 | None => None
                 end) es.

(** No newline in [s]. *)
Definition single_line (s : string) : bool :=
  forallb (fun c => negb (Ascii.eqb c newline)) (list_ascii_of_string s).

(** No regular expression operator other than [.] in the address. *)
Definition plain_address (address : string) : bool :=
  forallb (fun c => negb (is_operator c)) (list_ascii_of_string address).

(** The pattern built from [address] matches nowhere in [h]. *)
Definition matches_nowhere (address h : string) : bool :=
  match finditer_group1 address h with
  | Some [] => true
  | _ => false
  end.

(** An entry the filter scan treats plainly: its address reads
    [address/suffix] with a one-line suffix, or the pattern does not
    occur in it at all. *)
Definition regular_entry (address : string) (e : entry) : Prop :=
  exists h, href e = Some h /\
    match suffix_under address h with
    | Some sfx => single_line sfx = true
    | None => matches_nowhere address h = true
    end.

(** *** Sessions *)

(** The command keeps the property [P] of the session, whatever its
    outcome. *)
Definition preserves {A} (P : Session -> Prop) (c : M (Session * World) A) : Prop :=
  forall st, P (fst st) -> P (fst (snd (c st))).

(** The level [logout] logs a response at. *)
Definition logout_level (r : response) : level :=
  if status_code r =? 204 then INFO else ERROR.

(** *** Rule fields and log options *)

(** The field holds a marker. *)
Definition in_marker_state (d : gmap string pyvalue) : bool :=
  RuleElement.is_none d || RuleElement.is_any d.

(** How many of the three forms (any, none, explicit list) are present. *)
Definition forms_active (f : field) (d : gmap string pyvalue) : nat :=
  (Nat.b2n (RuleElement.is_any d) + Nat.b2n (RuleElement.is_none d)
   + Nat.b2n (NestedDict.contains (typeof f) d))%nat.

(** The field holds an explicit list. *)
Definition holds_list (f : field) (d : gmap string pyvalue) : Prop :=
  exists l, d !! typeof f = Some (PList l).

(** [log_accounting_info_mode] is missing or a boolean, as documented. *)
Definition accounting_typed (d : gmap string pyvalue) : Prop :=
  d !! "log_accounting_info_mode" = None
  \/ exists b, d !! "log_accounting_info_mode" = Some (PBool b).

(** *** Floats *)

(** Spec side of version negotiation: a version identifier is a numeric
    string, a decimal numeral [[sign] digits [. digits]].  Its digits are
    read by the decimal numbers of the standard library
    ([DecimalString], [N.of_uint]), not by the code's [float]. *)
Fixpoint spec_integer_part (s : string) : string :=
  match s with
  | EmptyString => EmptyString
  | String c r =>
      if Ascii.eqb c "."%char then EmptyString
      else String c (spec_integer_part r)
  end.

Fixpoint spec_fraction_part (s : string) : string :=
  match s with
  | EmptyString => EmptyString
  | String c r =>
      if Ascii.eqb c "."%char then r else spec_fraction_part r
  end.

Definition spec_unsigned (s : string) : bool * string :=
  match s with
  | String c r => if Ascii.eqb c "-"%char then (true, r)
                  else if Ascii.eqb c "+"%char then (false, r)
                  else (false, s)
  | EmptyString => (false, s)
  end.

(** The numeral [v] as sign, numerator [n] and number [k] of fraction
    digits: it denotes [n / 10^k], negated under a minus sign. *)
Definition spec_version_number (v : string) : option (bool * N * nat) :=
  let '(sg, r) := spec_unsigned v in
  let ip := spec_integer_part r in
  let fp := spec_fraction_part r in
  match DecimalString.NilEmpty.uint_of_string (ip ++ fp) with
  | Some Decimal.Nil => None
  | Some u => Some (sg, N.of_uint u, String.length fp)
  | None => None
  end.

(** The binary64 nearest to [n / 10^k]: the IEEE 754 quotient, rounded
    to nearest even, of the integers [n] and [10^k]. *)
Definition spec_binary64 (sg : bool) (n : N) (k : nat) : spec_float :=
  match n with
  | N0 => S754_zero sg
  | Npos p =>
      SFdiv 53 1024 (S754_finite sg p 0)
            (S754_finite false (Nat.iter k (Pos.mul 10) 1%positive) 0)
  end.

(** The float a version identifier stands for. *)
Definition spec_version_float (v : string) : option spec_float :=
  match spec_version_number v with
  | Some (sg, n, k) => Some (spec_binary64 sg n k)
  | None => None
  end.

(** [v] is a decimal numeral. *)
Definition is_decimal (v : string) : bool :=
  match spec_version_number v with
  | Some _ => true
  | None => false
  end.

(** The float [f] is exactly the number [n / 10^k]. *)
Definition binary64_is (f : spec_float) (n : N) (k : nat) : bool :=
  match f with
  | S754_zero _ => (n =? 0)%N
  | S754_finite false m e =>
      Z.pos m * 2 ^ Z.max 0 e * 10 ^ Z.of_nat k
      =? Z.of_N n * 2 ^ Z.max 0 (- e)
  | _ => false
  end.

(** The characters of an unsigned decimal numeral. *)
Definition numeral_char (c : ascii) : bool :=
  match digit_of c with
  | Some _ => true
  | None => Ascii.eqb c "."%char
  end.

Definition is_nan (f : spec_float) : bool :=
  match f with
  | S754_nan => true
  | _ => false
  end.

(** The position of a float that is not a NaN in the order [SFcompare]
    decides: class, then exponent, then mantissa. *)
Definition float_key (f : spec_float) : Z * Z * Z :=
  match f with
  | S754_zero _ => (0, 0, 0)
  | S754_infinity false => (2, 0, 0)
  | S754_infinity true => (-2, 0, 0)
  | S754_nan => (0, 0, 0)
  | S754_finite false m e => (1, e, Z.pos m)
  | S754_finite true m e => (-1, - e, - Z.pos m)
  end.

(** The lexicographic order on keys. *)
Definition key_lt (a b : Z * Z * Z) : Prop :=
  let '(a1, a2, a3) := a in
  let '(b1, b2, b3) := b in
  a1 < b1 \/ (a1 = b1 /\ (a2 < b2 \/ (a2 = b2 /\ a3 < b3))).

(** *** Validated setters *)

(** The shape the validated setters share. *)
Definition set_validated (key : string) (allowed : list string)
           (value : pyvalue) (d : gmap string pyvalue)
  : gmap string pyvalue :=
  if match value with
     | PStr s => existsb (String.eqb s) allowed
     | _ => false
     end
  then NestedDict.update key value d else d.

(** [value] is one of the strings of [allowed]. *)
Definition one_of (allowed : list string) (value : pyvalue) : Prop :=
  exists s, In s allowed /\ value = PStr s.

(** *** Discovery *)

(** The entry-point query of [get_api_entry]. *)
Definition entry_query (url : string) (v : pyvalue) (t : Z) : request :=
  GET [Lit url; Lit "/"; StrOf v; Lit "/api"] t.

(** The world after [q] was sent and answered from [pending], with the
    lines [ls] logged since. *)
Definition world_after (q : request) (rest : list outcome)
           (ls : list (level * message)) (w : World) : World :=
  mkWorld rest (q :: sent w) (ls ++ logged w) (config_file w) (handles w).

Definition version_note (v : pyvalue) : level * message :=
  (INFO, [Lit "Using SMC API version: "; StrOf v]).

Definition retrieved_note : level * message :=
  (DEBUG, [Lit "Successfully retrieved API entry points from SMC"]).

(** The result is a raised [RequestException]. *)
Definition raises_request_exception {A} (r : result A) : bool :=
  match r with
  | Raise RequestException => true
  | _ => false
  end.

(** *** Login *)

(** The command keeps the property [Q] of the world, whatever its outcome. *)
Definition wkeeps {X A} (Q : World -> Prop) (c : M (X * World) A) : Prop :=
  forall st, Q (snd st) -> Q (snd (snd (c st))).

(** The session [login] works on once address, credential and timeout are
    stored. *)
Definition with_credentials (u k : string) (t : option Z) (s : Session)
  : Session :=
  match t with
  | Some t' => if t' =? 0 then Session.set_credentials u k s
               else Session.set_timeout t' (Session.set_credentials u k s)
  | None => Session.set_credentials u k s
  end.

Definition login_failed_note (r : response) : message :=
  [Lit "Login failed, HTTP status code: "; StrOf (PInt (status_code r))].

(** *** Requests sent *)

Definition is_post (q : request) : bool :=
  match q with
  | POST _ _ => true
  | _ => false
  end.

(** The number of login requests among those sent. *)
Definition posts (w : World) : nat := length (List.filter is_post (sent w)).

Definition no_session_note : message :=
  [Lit "No previous SMC session found. This will require a new login attempt"].

(** *** Concrete directories, sessions and worlds *)

Definition directory_0 : list entry :=
  [Entry (Some "login") (Some "http://smc/6.5/old-login");
   Entry (Some "logout") (Some "http://smc/6.5/logout");
   Entry (Some "login") (Some "http://smc/6.5/login")].

Definition directory_1 : list entry :=
  [Entry (Some "elements") (Some "elements");
   Entry (Some "host") (Some "elements/host");
   Entry (Some "network") (Some "elements/network");
   Entry (Some "group") (Some "elements/group")].

Definition directory_2 : list entry :=
  [Entry (Some "elements") (Some "elements");
   Entry (Some "host") (Some "elements/host");
   Entry (Some "hosts") (Some "elements/host")].

Definition directory_3 : list entry :=
  [Entry (Some "login") (Some "http://smc:8082/6.5/login");
   Entry (Some "logout") (Some "http://smc:8082/6.5/logout")].

Definition session_1 : Session :=
  mkSession (Some (mkCache (Some directory_3) (PStr "6.5")))
            (Some 0%nat) (Some 0%nat)
            (Some "http://smc:8082") (Some "K") 10 0.

Definition entry_points_reply : outcome :=
  Reply (Response 200 (Json (JsonDoc None (Some directory_3)))).

Definition world_1 : World :=
  mkWorld [entry_points_reply; Reply (Response 200 NotJson);
           entry_points_reply; Reply (Response 200 NotJson)]
          [] [] None 1.

Definition world_2 : World :=
  mkWorld [Reply (Response 204 NotJson); Reply (Response 401 NotJson)]
          [] [] None 1.

Definition versions_reply : outcome :=
  Reply (Response 200 (Json (JsonDoc (Some ["6.1"; "6.2"; "6.5"]) None))).

Definition world_3 : World :=
  mkWorld [versions_reply; entry_points_reply; Reply (Response 200 NotJson)]
          [] [] None 0.

Definition negotiated_3 : pyvalue :=
  api_version
    (Session.cache
       (fst (snd (Session.login (Some "http://smc:8082") (Some "K") PNone None
                                (Session.__init__, world_3))))).

Definition directory_4 : list entry :=
  [Entry (Some "login") (Some "http://smc/6.5/login");
   Entry (Some "login") None].

Definition directory_5 : list entry :=
  [Entry (Some "elements") (Some "elements");
   Entry (Some "host") (Some "elements/host");
   Entry (Some "broken") None].

Definition directory_6 : list entry :=
  [Entry (Some "elements") (Some "http://smc:8082/6.5/elements");
   Entry (Some "host") (Some "http://smc:8082/6.5/elements/host")].

Definition stored_settings : config :=
  Config (Some "http://smc:8082") (Some "K") (PStr "6.5") None.

Definition world_4 : World :=
  mkWorld [entry_points_reply; Reply (Response 200 NotJson);
           entry_points_reply; Reply (Response 200 NotJson)]
          [] [] (Some stored_settings) 0.

(** * Properties *)

(** ** Link directory *)

Section Directory.

Variable verb : string.

Lemma scan_step (found : option string) (e : entry) :
  match rel e with
  | Some r => if String.eqb r verb then href e else found
  | None => found
  end = if has_rel verb e then href e else found.
Proof. unfold has_rel. destruct (rel e); reflexivity. Qed.

Lemma scan_entries_from (es : list entry) (found : option string) :
  fold_left
    (fun found e =>
       match rel e with
       | Some r => if String.eqb r verb then href e else found
       | None => found
       end) es found
  = match last (List.filter (has_rel verb) es) with
    | Some e => href e
    | None => found
    end.
Proof.
  revert found. induction es as [|e es IH]; intros found; simpl.
  - reflexivity.
  - rewrite IH, scan_step.
    destruct (has_rel verb e); [|reflexivity].
    rewrite last_cons. destruct (last (List.filter (has_rel verb) es)); reflexivity.
Qed.

Lemma scan_entries_last (es : list entry) :
  SessionCache.scan_entries verb es
  = match last_with_rel verb es with
    | Some e => href e
    | None => None
    end.
Proof. apply scan_entries_from. Qed.

End Directory.

Lemma get_entry_href_nonempty (c : SessionCache) (verb : string) (es : list entry) :
  api_entry c = Some es -> es <> [] ->
  SessionCache.get_entry_href c verb
  = match SessionCache.scan_entries verb es with
    | Some h =>
        if String.eqb h ""
        then Raise (UnsupportedEntryPoint
                      (SessionCache.unsupported_message verb (api_version c)))
        else Ok h
    | None => Raise (UnsupportedEntryPoint
                       (SessionCache.unsupported_message verb (api_version c)))
    end.
Proof.
  intros Hes Hne. unfold SessionCache.get_entry_href. rewrite Hes.
  destruct es; [congruence | reflexivity].
Qed.

(** C1 (amended).  [get_entry_href] on a directory without entries, or
    before any discovery, fails with [SMCConnectionError].  On a directory
    with at least one entry: when the last entry carrying the relation has
    a non-empty address, that address is returned (later entries shadow
    earlier ones); when no entry carries the relation, the call fails with
    [UnsupportedEntryPoint] and the message holds the requested relation
    and the current version. *)
Theorem get_entry_href_shadowing (c : SessionCache) (verb : string) :
  (api_entry c = None \/ api_entry c = Some [] ->
   exists msg, SessionCache.get_entry_href c verb = Raise (SMCConnectionError msg))
  /\
  (forall es, api_entry c = Some es -> es <> [] ->
     (forall e h, last_with_rel verb es = Some e -> href e = Some h -> h <> "" ->
                  SessionCache.get_entry_href c verb = Ok h)
     /\
     (last_with_rel verb es = None ->
      exists msg,
        SessionCache.get_entry_href c verb = Raise (UnsupportedEntryPoint msg)
        /\ In (StrOf (PStr verb)) msg
        /\ In (StrOf (api_version c)) msg)).
Proof.
  split.
  - intros [H|H]; unfold SessionCache.get_entry_href; rewrite H; eauto.
  - intros es Hes Hne. rewrite (get_entry_href_nonempty c verb es Hes Hne).
    rewrite scan_entries_last. split.
    + intros e h -> -> Hh.
      destruct (String.eqb_spec h ""); [contradiction | reflexivity].
    + intros ->. eexists; split; [reflexivity|].
      unfold SessionCache.unsupported_message; simpl; tauto.
Qed.

(** The directory lists [login] twice: the later address is returned. *)
Lemma get_entry_href_shadowing_witness :
  SessionCache.get_entry_href (mkCache (Some directory_0) (PInt 6)) "login"
  = Ok "http://smc/6.5/login".
Proof.
  apply (proj1 (proj2 (get_entry_href_shadowing
                         (mkCache (Some directory_0) (PInt 6)) "login")
                      directory_0 eq_refl ltac:(discriminate))
               (Entry (Some "login") (Some "http://smc/6.5/login"))).
  - reflexivity.
  - reflexivity.
  - discriminate.
Defined.

(** Counterexample to C1 as first stated, the empty directory: no entry carries
    [login], and the error is [SMCConnectionError], not
    [UnsupportedEntryPoint]. *)
Lemma get_entry_href_empty_directory :
  last_with_rel "login" [] = None
  /\ SessionCache.get_entry_href (mkCache (Some []) (PInt 6)) "login"
     = Raise (SMCConnectionError
                [Lit "No entry points found, it is likely there is no valid login session."]).
Proof. split; reflexivity. Qed.

(** ** Filter scan *)

Lemma atom_matches_self (c : ascii) :
  atom_matches (if Ascii.eqb c "."%char then AAny else AChar c) c = true.
Proof.
  destruct (Ascii.eqb_spec c "."%char) as [->|Hc]; simpl.
  - reflexivity.
  - apply Ascii.eqb_refl.
Qed.

Lemma plain_compiles (l : list ascii) :
  forallb (fun c => negb (is_operator c)) l = true ->
  exists p, compile_address l = Some p
            /\ length p = S (length l)
            /\ forall rest, match_here p (l ++ "/"%char :: rest) = Some rest.
Proof.
  induction l as [|c l IH]; simpl; intros H.
  - eexists; split; [reflexivity|]. split; [reflexivity|]. intros rest. reflexivity.
  - apply andb_prop in H as [Hc Hl]. apply negb_true_iff in Hc.
    destruct (IH Hl) as (p & Hp & Hlen & Hm).
    rewrite Hc, Hp. eexists; split; [reflexivity|]. split.
    + simpl. now rewrite Hlen.
    + intros rest. cbn [match_here]. rewrite (atom_matches_self c). apply Hm.
Qed.

Lemma strip_prefix_app (p s rest : list ascii) :
  strip_prefix p s = Some rest -> s = p ++ rest.
Proof.
  revert s. induction p as [|a p IH]; intros s; simpl.
  - intros [= ->]. reflexivity.
  - destruct s as [|c s]; [discriminate|].
    destruct (Ascii.eqb_spec a c) as [->|]; [|discriminate].
    intros H. now rewrite (IH _ H).
Qed.

Lemma rest_of_line_single (l : list ascii) :
  forallb (fun c => negb (Ascii.eqb c newline)) l = true ->
  rest_of_line l = l.
Proof.
  induction l as [|c l IH]; simpl; [reflexivity|].
  intros H. apply andb_prop in H as [Hc Hl]. apply negb_true_iff in Hc.
  rewrite Hc. now rewrite IH.
Qed.

Lemma scan_skip_all (p : list atom) (s : list ascii) (k : nat) :
  (length s <= k)%nat -> scan p s k = [].
Proof.
  revert k. induction s as [|c s IH]; intros k Hk; simpl; [reflexivity|].
  simpl in Hk. destruct k as [|k]; [lia|]. apply IH. lia.
Qed.

(** One address of the form [address/suffix] yields its suffix, once. *)
Lemma finditer_under (address h sfx : string) :
  plain_address address = true ->
  suffix_under address h = Some sfx ->
  single_line sfx = true ->
  finditer_group1 address h = Some [sfx].
Proof.
  unfold plain_address, suffix_under, single_line, finditer_group1.
  intros Hplain Hsfx Hline.
  destruct (plain_compiles _ Hplain) as (p & Hp & Hlen & Hm). rewrite Hp.
  destruct (strip_prefix _ _) as [rest|] eqn:Hstrip; [|discriminate].
  injection Hsfx as <-.
  rewrite list_ascii_of_string_of_list_ascii in Hline.
  apply strip_prefix_app in Hstrip. rewrite <- app_assoc in Hstrip. simpl in Hstrip.
  rewrite Hstrip. specialize (Hm rest).
  destruct (list_ascii_of_string address ++ "/"%char :: rest) as [|c s'] eqn:Hs.
  - destruct (list_ascii_of_string address); discriminate.
  - cbn [scan]. rewrite Hm, (rest_of_line_single _ Hline).
    rewrite scan_skip_all; [reflexivity|].
    apply (f_equal (@length ascii)) in Hs. rewrite length_app in Hs. simpl in Hs.
    rewrite Hlen. lia.
Qed.

Lemma finditer_regular (address : string) (e : entry) :
  plain_address address = true ->
  regular_entry address e ->
  exists h, href e = Some h
            /\ finditer_group1 address h
               = Some (match suffix_under address h with
                       | Some sfx => [sfx]
                       | None => []
                       end).
Proof.
  intros Hplain (h & Hh & Hcase). exists h. split; [exact Hh|].
  destruct (suffix_under address h) as [sfx|] eqn:Hsfx.
  - now apply finditer_under.
  - unfold matches_nowhere in Hcase.
    destruct (finditer_group1 address h) as [[|]|]; congruence.
Qed.

Lemma collect_filters_regular (address : string) (es : list entry) :
  plain_address address = true ->
  Forall (regular_entry address) es ->
  SessionCache.collect_filters address es = Ok (suffixes_under address es).
Proof.
  intros Hplain. induction 1 as [|e es He _ IH]; [reflexivity|].
  destruct (finditer_regular address e Hplain He) as (h & Hh & Hf).
  cbn [SessionCache.collect_filters]. rewrite Hh, Hf, IH.
  unfold suffixes_under. cbn [omap list_omap]. rewrite Hh.
  destruct (suffix_under address h); reflexivity.
Qed.

(** C8 (amended).  When [elements] resolves to an address without
    regular expression operators, and every entry's address either reads
    [address/suffix] with a one-line suffix or contains no match of the
    pattern, [get_element_filters] returns the suffixes in directory
    order, one for each entry of the first kind: a list, in which a suffix
    that two entries share is repeated. *)
Theorem get_element_filters_suffixes (c : SessionCache) (es : list entry)
        (address : string) :
  api_entry c = Some es ->
  SessionCache.get_entry_href c "elements" = Ok address ->
  plain_address address = true ->
  Forall (regular_entry address) es ->
  SessionCache.get_element_filters c = Ok (suffixes_under address es).
Proof.
  intros Hes Haddr Hplain Hreg.
  unfold SessionCache.get_element_filters. rewrite Haddr, Hes.
  now apply collect_filters_regular.
Qed.

Lemma regular_entry_decide (address : string) (e : entry) (h : string) :
  href e = Some h ->
  match suffix_under address h with
  | Some sfx => single_line sfx
  | None => matches_nowhere address h
  end = true ->
  regular_entry address e.
Proof.
  intros Hh H. exists h. split; [exact Hh|].
  destruct (suffix_under address h); exact H.
Qed.

(** Entries [elements/host], [elements/network] and [elements/group]
    under [elements] give [host], [network], [group]. *)
Lemma get_element_filters_suffixes_witness :
  SessionCache.get_element_filters (mkCache (Some directory_1) PNone)
  = Ok ["host"; "network"; "group"].
Proof.
  apply (get_element_filters_suffixes
           (mkCache (Some directory_1) PNone) directory_1 "elements").
  - reflexivity.
  - reflexivity.
  - reflexivity.
  - repeat constructor; eapply regular_entry_decide; reflexivity.
Defined.

(** Counterexample to C8 as first stated, two entries sharing an address: the
    suffix is returned twice, so the result is not a set of distinct
    suffixes. *)
Lemma get_element_filters_keeps_duplicates :
  SessionCache.get_element_filters (mkCache (Some directory_2) PNone)
  = Ok ["host"; "host"]
  /\ ~ NoDup ["host"; "host"].
Proof.
  split; [reflexivity|].
  intros H. apply NoDup_cons_1_1 in H. apply H. left.
Qed.

(** ** Session invariants *)

Section Preservation.

Variable P : Session -> Prop.

Lemma bind_post {A B} (c : M (Session * World) A)
      (k : A -> M (Session * World) B) (st : Session * World) :
  P (fst (snd (c st))) ->
  (forall a, preserves P (k a)) ->
  P (fst (snd (bind c k st))).
Proof.
  intros Hc Hk. unfold bind. destruct (c st) as [[a|e] st']; simpl in *.
  - now apply Hk.
  - exact Hc.
Qed.

Lemma preserves_bind {A B} (c : M (Session * World) A)
      (k : A -> M (Session * World) B) :
  preserves P c -> (forall a, preserves P (k a)) -> preserves P (bind c k).
Proof. intros Hc Hk st Hst. apply bind_post; auto. Qed.

Lemma preserves_ret {A} (a : A) : preserves P (ret a).
Proof. intros st H; exact H. Qed.

Lemma preserves_raise {A} (e : exn) : preserves P (@raise _ A e).
Proof. intros st H; exact H. Qed.

Lemma preserves_self : preserves P self.
Proof. intros [s w] H; exact H. Qed.

Lemma preserves_send (q : request) : preserves P (send q).
Proof.
  intros [s w] H. unfold send, world_send.
  destruct (pending w) as [|[r|] rest]; exact H.
Qed.

Lemma preserves_logger (l : level) (m : message) : preserves P (logger l m).
Proof. intros [s w] H; exact H. Qed.

Lemma preserves_requests_session : preserves P requests_session.
Proof. intros [s w] H; exact H. Qed.

Lemma preserves_load_from_file : preserves P load_from_file.
Proof. intros [s w] H. unfold load_from_file. destruct (config_file w); exact H. Qed.

Lemma preserves_of_attr {A} (o : option A) : preserves P (Session.of_attr o).
Proof. destruct o; [apply preserves_ret | apply preserves_raise]. Qed.

Lemma preserves_set_self (f : Session -> Session) :
  (forall s, P s -> P (f s)) -> preserves P (set_self f).
Proof. intros Hf [s w] H. now apply Hf. Qed.

Lemma preserves_on_cache {A} (c : M (SessionCache * World) A) :
  (forall s c', P s -> P (Session.set_cache c' s)) ->
  preserves P (Session.on_cache c).
Proof.
  intros Hf [s w] H. unfold Session.on_cache.
  destruct (c (Session.cache s, w)) as [r [c' w']]. now apply Hf.
Qed.

(** The properties the login path keeps: those that do not look at the
    cache, the transport handles, the address, the credential or the
    timeout. *)
Hypothesis P_cache : forall s c, P s -> P (Session.set_cache c s).
Hypothesis P_session : forall s h, P s -> P (Session.set_session h s).
Hypothesis P_connection : forall s h, P s -> P (Session.set_connection h s).
Hypothesis P_credentials : forall s u k, P s -> P (Session.set_credentials u k s).
Hypothesis P_timeout : forall s t, P s -> P (Session.set_timeout t s).

Ltac preserve :=
  repeat first
    [ apply preserves_ret | apply preserves_raise | apply preserves_self
    | apply preserves_send | apply preserves_logger
    | apply preserves_requests_session | apply preserves_load_from_file
    | apply preserves_of_attr
    | apply preserves_on_cache; intros; now apply P_cache
    | apply preserves_set_self; intros; auto
    | apply preserves_bind; [| intros ?]
    | match goal with
      | |- preserves _ (if ?b then _ else _) => destruct b
      | |- preserves _ (match ?o with Some _ => _ | None => _ end) => destruct o
      end ].

Lemma preserves_login_session (v : pyvalue) :
  preserves P (Session.login_session v).
Proof. unfold Session.login_session. preserve. Qed.

Lemma preserves_login_with (u k : string) (v : pyvalue) (t : option Z) :
  preserves P (Session.login_with u k v t).
Proof.
  unfold Session.login_with. preserve.
Qed.

Lemma preserves_login_stored : preserves P Session.login_stored.
Proof.
  unfold Session.login_stored. preserve.
Qed.

Lemma preserves_login (url api_key : option string) (v : pyvalue)
      (t : option Z) :
  preserves P (Session.login url api_key v t).
Proof.
  unfold Session.login.
  destruct url, api_key; preserve.
Qed.

Lemma preserves_logout : preserves P Session.logout.
Proof. unfold Session.logout. preserve. Qed.

End Preservation.

Lemma http_unauthorized_first (s : Session) (w : World) (h : nat) :
  _session s = Some h -> http_401 s < 1 ->
  Session.http_unauthorized (s, w)
  = Session.login (_url s) (_api_key s) (api_version (Session.cache s)) None
      (Session.set_cache (Session.cache s) (Session.count_401 s),
       world_log INFO Session.unauthorized_note w).
Proof.
  intros Hs Hc. unfold Session.http_unauthorized, bind, set_self, self, logger.
  cbn [Session.count_401 _session http_401]. rewrite Hs.
  destruct (Z.leb_spec 2 (http_401 s + 1)); [lia|]. reflexivity.
Qed.

Lemma http_unauthorized_exhausted (s : Session) (w : World) (h : nat) :
  _session s = Some h -> 1 <= http_401 s ->
  Session.http_unauthorized (s, w)
  = (Raise (SMCConnectionError Session.too_many_401),
     (Session.count_401 s, world_log INFO Session.unauthorized_note w)).
Proof.
  intros Hs Hc. unfold Session.http_unauthorized, bind, set_self, self, logger.
  cbn [Session.count_401 _session http_401]. rewrite Hs.
  destruct (Z.leb_spec 2 (http_401 s + 1)); [|lia]. reflexivity.
Qed.

Lemma login_keeps (P : Session -> Prop) :
  (forall s c, P s -> P (Session.set_cache c s)) ->
  (forall s h, P s -> P (Session.set_session h s)) ->
  (forall s h, P s -> P (Session.set_connection h s)) ->
  (forall s u k, P s -> P (Session.set_credentials u k s)) ->
  (forall s t, P s -> P (Session.set_timeout t s)) ->
  forall url api_key v t st,
    P (fst st) -> P (fst (snd (Session.login url api_key v t st))).
Proof. intros. now apply preserves_login. Qed.

Lemma login_keeps_counter url api_key v t (s : Session) (w : World) :
  http_401 (fst (snd (Session.login url api_key v t (s, w)))) = http_401 s.
Proof.
  apply (login_keeps (fun s' => http_401 s' = http_401 s)); auto.
Qed.

Lemma login_keeps_established url api_key v t (s : Session) (w : World) :
  is_Some (_session s) ->
  is_Some (_session (fst (snd (Session.login url api_key v t (s, w))))).
Proof.
  intros H.
  apply (login_keeps (fun s' => is_Some (_session s'))); simpl; eauto.
Qed.

Lemma logout_keeps_counter (s : Session) (w : World) :
  http_401 (fst (snd (Session.logout (s, w)))) = http_401 s.
Proof.
  apply (preserves_logout (fun s' => http_401 s' = http_401 s)); auto.
Qed.

Lemma http_unauthorized_counts (s : Session) (w : World) :
  http_401 (fst (snd (Session.http_unauthorized (s, w)))) = http_401 s + 1.
Proof.
  destruct (_session s) as [h|] eqn:Hs.
  - destruct (Z.lt_ge_cases (http_401 s) 1) as [Hc|Hc].
    + rewrite (http_unauthorized_first s w h Hs Hc), login_keeps_counter.
      reflexivity.
    + rewrite (http_unauthorized_exhausted s w h Hs Hc). reflexivity.
  - unfold Session.http_unauthorized, bind, set_self, self.
    cbn [Session.count_401 _session]. rewrite Hs. reflexivity.
Qed.

Lemma http_unauthorized_keeps_established (s : Session) (w : World) :
  is_Some (_session s) ->
  is_Some (_session (fst (snd (Session.http_unauthorized (s, w))))).
Proof.
  intros [h Hs].
  destruct (Z.lt_ge_cases (http_401 s) 1) as [Hc|Hc].
  - rewrite (http_unauthorized_first s w h Hs Hc).
    apply login_keeps_established. simpl. eauto.
  - rewrite (http_unauthorized_exhausted s w h Hs Hc). simpl. eauto.
Qed.

(** A call on an established session whose counter is already 1 or more
    fails and sends nothing. *)
Lemma http_unauthorized_refused (st : Session * World) :
  is_Some (_session (fst st)) -> 1 <= http_401 (fst st) ->
  (exists msg, fst (Session.http_unauthorized st) = Raise (SMCConnectionError msg))
  /\ sent (snd (snd (Session.http_unauthorized st))) = sent (snd st).
Proof.
  destruct st as [s w]. intros [h Hs] Hc.
  rewrite (http_unauthorized_exhausted s w h Hs Hc). simpl. eauto.
Qed.

(** C2 (amended).  On an established session whose counter is 0, the
    first [http_unauthorized] is the login with the stored address,
    credential and version, run with the counter at 1; the second call and
    the third call fail with [SMCConnectionError] and send no request. *)
Theorem http_unauthorized_threshold (s : Session) (w : World) (h : nat) :
  _session s = Some h -> http_401 s = 0 ->
  let r1 := Session.http_unauthorized (s, w) in
  let r2 := Session.http_unauthorized (snd r1) in
  let r3 := Session.http_unauthorized (snd r2) in
  r1 = Session.login (_url s) (_api_key s) (api_version (Session.cache s)) None
         (Session.set_cache (Session.cache s) (Session.count_401 s),
          world_log INFO Session.unauthorized_note w)
  /\ (exists msg, fst r2 = Raise (SMCConnectionError msg))
  /\ sent (snd (snd r2)) = sent (snd (snd r1))
  /\ (exists msg, fst r3 = Raise (SMCConnectionError msg))
  /\ sent (snd (snd r3)) = sent (snd (snd r1)).
Proof.
  intros Hs Hc r1 r2 r3.
  assert (E1 : is_Some (_session (fst (snd r1)))).
  { subst r1. destruct (Session.http_unauthorized (s, w)) as [r [s1 w1]] eqn:E.
    change s1 with (fst (snd (r, (s1, w1)))). rewrite <- E.
    apply http_unauthorized_keeps_established. rewrite Hs; eauto. }
  assert (C1 : http_401 (fst (snd r1)) = 1).
  { subst r1. rewrite http_unauthorized_counts. lia. }
  assert (E2 : is_Some (_session (fst (snd r2)))).
  { subst r2. destruct (snd r1) as [s1 w1].
    now apply http_unauthorized_keeps_established. }
  assert (C2 : http_401 (fst (snd r2)) = 2).
  { subst r2. destruct (snd r1) as [s1 w1].
    rewrite http_unauthorized_counts. simpl in C1. lia. }
  destruct (http_unauthorized_refused (snd r1) E1 ltac:(lia)) as [F2 S2].
  destruct (http_unauthorized_refused (snd r2) E2 ltac:(lia)) as [F3 S3].
  split; [apply (http_unauthorized_first s w h Hs); lia|].
  repeat split; auto. fold r2 in S2. fold r3 in S3. congruence.
Qed.

(** C3 (amended).  Nothing resets the counter: [login] and [logout] leave
    it as it is whatever their outcome, every [http_unauthorized] adds one
    to it, and on an established session with the counter at 1 or more
    [http_unauthorized] fails with [SMCConnectionError].  So after one
    failure followed by a successful login, the next failure is not
    retried. *)
Theorem counter_never_reset :
  (forall url api_key v t s w,
      http_401 (fst (snd (Session.login url api_key v t (s, w)))) = http_401 s)
  /\ (forall s w, http_401 (fst (snd (Session.logout (s, w)))) = http_401 s)
  /\ (forall s w,
         http_401 (fst (snd (Session.http_unauthorized (s, w)))) = http_401 s + 1)
  /\ (forall st,
         is_Some (_session (fst st)) -> 1 <= http_401 (fst st) ->
         exists msg,
           fst (Session.http_unauthorized st) = Raise (SMCConnectionError msg)).
Proof.
  split; [exact login_keeps_counter|].
  split; [exact logout_keeps_counter|].
  split; [exact http_unauthorized_counts|].
  intros st E C. apply (http_unauthorized_refused st E C).
Qed.

(** ** Logout *)

Lemma logout_replied (s : Session) (w : World) (h : nat) (address : string)
      (r : response) (rest : list outcome) :
  _session s = Some h ->
  SessionCache.get_entry_href (Session.cache s) "logout" = Ok address ->
  pending w = Reply r :: rest ->
  exists note,
    Session.logout (s, w)
    = (Ok tt,
       (Session.set_cache (Session.cache s) s,
        mkWorld rest (PUT address :: sent w)
                ((logout_level r, note) :: logged w)
                (config_file w) (handles w))).
Proof.
  intros Hs Ha Hp.
  unfold Session.logout, bind, self, Session.on_cache, Session.of_result,
    SessionCache.of_result, send, world_send, logger, world_log, logout_level.
  rewrite Hs. cbn [Session.cache]. rewrite Ha. cbn [ret]. rewrite Hp.
  cbn [pending sent logged config_file handles].
  destruct (status_code r =? 204); [eexists; reflexivity|].
  destruct (status_code r =? 401); eexists; reflexivity.
Qed.

(** C9.  On an established session whose directory resolves [logout],
    two calls of [logout] in a row that the server answers, with any two
    status codes, both return without raising: each sends one [PUT] to the
    [logout] address and writes one log line, at level [INFO] for status
    204 and [ERROR] for any other, and the session keeps its handle. *)
Theorem logout_never_raises (s : Session) (w : World) (h : nat)
        (address : string) (r1 r2 : response) (rest : list outcome) :
  _session s = Some h ->
  SessionCache.get_entry_href (Session.cache s) "logout" = Ok address ->
  pending w = Reply r1 :: Reply r2 :: rest ->
  let o1 := Session.logout (s, w) in
  let o2 := Session.logout (snd o1) in
  fst o1 = Ok tt
  /\ fst o2 = Ok tt
  /\ sent (snd (snd o2)) = PUT address :: PUT address :: sent w
  /\ (exists n1 n2,
         logged (snd (snd o2))
         = (logout_level r2, n2) :: (logout_level r1, n1) :: logged w)
  /\ _session (fst (snd o2)) = Some h.
Proof.
  intros Hs Ha Hp o1 o2.
  destruct (logout_replied s w h address r1 _ Hs Ha Hp) as [n1 E1].
  subst o2 o1. rewrite E1. cbn [snd fst].
  edestruct (logout_replied (Session.set_cache (Session.cache s) s)
               (mkWorld (Reply r2 :: rest) (PUT address :: sent w)
                        ((logout_level r1, n1) :: logged w)
                        (config_file w) (handles w)) h address r2 rest)
    as [n2 E2]; [exact Hs | exact Ha | reflexivity |].
  rewrite E2. cbn. repeat split; eauto.
Qed.

Lemma logout_without_session (s : Session) (w : World) :
  _session s = None -> Session.logout (s, w) = (Ok tt, (s, w)).
Proof.
  intros Hs. unfold Session.logout, bind, self. now rewrite Hs.
Qed.

(** ** Runs of a concrete session *)

(** The third call on [session_1] fails with [SMCConnectionError]. *)
Lemma http_unauthorized_threshold_witness :
  exists msg,
    fst (Session.http_unauthorized
           (snd (Session.http_unauthorized
                   (snd (Session.http_unauthorized (session_1, world_1))))))
    = Raise (SMCConnectionError msg).
Proof.
  exact (proj1 (proj2 (proj2 (proj2
           (http_unauthorized_threshold session_1 world_1 0%nat
                                        eq_refl eq_refl))))).
Defined.

(** Counterexample to C2 as first stated, the second call: after a first call
    that logged in again, and with replies for one more login waiting, the
    second call fails with [SMCConnectionError] and sends nothing. *)
Lemma http_unauthorized_second_call_refused :
  let r1 := Session.http_unauthorized (session_1, world_1) in
  let r2 := Session.http_unauthorized (snd r1) in
  fst r1 = Ok tt
  /\ length (pending (snd (snd r1))) = 2%nat
  /\ fst r2 = Raise (SMCConnectionError Session.too_many_401)
  /\ sent (snd (snd r2)) = sent (snd (snd r1)).
Proof. vm_compute. repeat split. Qed.

(** Counterexample to C3 as first stated, on [session_1]: the login performed by
    [http_unauthorized] succeeds and the counter is 1, not 0, and the next
    call fails. *)
Lemma counter_kept_after_relogin :
  let r1 := Session.http_unauthorized (session_1, world_1) in
  fst r1 = Ok tt
  /\ http_401 (fst (snd r1)) = 1
  /\ fst (Session.http_unauthorized (snd r1))
     = Raise (SMCConnectionError Session.too_many_401).
Proof. vm_compute. repeat split. Qed.

(** [session_1] after one failure: a login leaves the counter at 1, and
    the next [http_unauthorized] fails. *)
Lemma counter_never_reset_witness :
  http_401 (fst (snd (Session.login (Some "http://smc:8082") (Some "K")
                                    (PStr "6.5") None
                                    (Session.count_401 session_1, world_1))))
  = 1
  /\ exists msg,
       fst (Session.http_unauthorized (Session.count_401 session_1, world_1))
       = Raise (SMCConnectionError msg).
Proof.
  split.
  - exact (proj1 counter_never_reset (Some "http://smc:8082") (Some "K")
                 (PStr "6.5") None (Session.count_401 session_1) world_1).
  - exact (proj2 (proj2 (proj2 counter_never_reset))
                 (Session.count_401 session_1, world_1)
                 (ex_intro _ 0%nat eq_refl) (Z.le_refl 1)).
Defined.

(** A 204 followed by a 401: neither call raises. *)
Lemma logout_never_raises_witness :
  fst (Session.logout (session_1, world_2)) = Ok tt
  /\ fst (Session.logout (snd (Session.logout (session_1, world_2)))) = Ok tt.
Proof.
  pose proof (logout_never_raises session_1 world_2 0%nat
                "http://smc:8082/6.5/logout"
                (Response 204 NotJson) (Response 401 NotJson) []
                eq_refl eq_refl eq_refl) as H.
  exact (conj (proj1 H) (proj1 (proj2 H))).
Defined.

(** ** Rule fields *)

Lemma typeof_not_any (f : field) : typeof f <> "any".
Proof. destruct f; discriminate. Qed.

Lemma typeof_not_none (f : field) : typeof f <> "none".
Proof. destruct f; discriminate. Qed.

Lemma contains_insert (k : string) (v : pyvalue) (d : gmap string pyvalue) :
  NestedDict.contains k (<[k := v]> d) = true.
Proof. unfold NestedDict.contains. now rewrite lookup_insert_eq. Qed.

Lemma contains_insert_ne (k k' : string) (v : pyvalue)
      (d : gmap string pyvalue) :
  k <> k' -> NestedDict.contains k' (<[k := v]> d) = NestedDict.contains k' d.
Proof. intros H. unfold NestedDict.contains. now rewrite lookup_insert_ne. Qed.

Lemma contains_empty (k : string) : NestedDict.contains k ∅ = false.
Proof. unfold NestedDict.contains. now rewrite lookup_empty. Qed.

Lemma forms_of_list (f : field) (v : pyvalue) :
  forms_active f (<[typeof f := v]> ∅) = 1%nat.
Proof.
  unfold forms_active, RuleElement.is_any, RuleElement.is_none.
  rewrite contains_insert.
  rewrite !contains_insert_ne by (apply typeof_not_any || apply typeof_not_none).
  now rewrite !contains_empty.
Qed.

Lemma forms_insert_plain (f : field) (v : pyvalue) (d : gmap string pyvalue) :
  in_marker_state d = false ->
  (forms_active f (<[typeof f := v]> d) <= 1)%nat.
Proof.
  unfold in_marker_state, forms_active, RuleElement.is_any, RuleElement.is_none.
  intros H. apply orb_false_elim in H as [Hn Ha].
  rewrite !contains_insert_ne by (apply typeof_not_any || apply typeof_not_none).
  rewrite Hn, Ha. destruct (NestedDict.contains (typeof f) _); simpl; lia.
Qed.

Lemma forms_plain (f : field) (d : gmap string pyvalue) :
  in_marker_state d = false -> (forms_active f d <= 1)%nat.
Proof.
  unfold in_marker_state, forms_active, RuleElement.is_any, RuleElement.is_none.
  intros H. apply orb_false_elim in H as [Hn Ha].
  rewrite Hn, Ha. destruct (NestedDict.contains (typeof f) _); simpl; lia.
Qed.

Lemma start_list_marker (f : field) (d : gmap string pyvalue) :
  in_marker_state d = true ->
  RuleElement.start_list f d = <[typeof f := PList []]> ∅.
Proof.
  unfold in_marker_state, RuleElement.start_list. now intros ->.
Qed.

Lemma start_list_plain (f : field) (d : gmap string pyvalue) :
  in_marker_state d = false -> RuleElement.start_list f d = d.
Proof.
  unfold in_marker_state, RuleElement.start_list. now intros ->.
Qed.

Lemma get_insert (k : string) (v : pyvalue) (d : gmap string pyvalue) :
  NestedDict.get k (<[k := v]> d) = v.
Proof. unfold NestedDict.get. now rewrite lookup_insert_eq. Qed.

Lemma add_in_marker_state (f : field) (x : item) (d : gmap string pyvalue) :
  in_marker_state d = true ->
  RuleElement.add f x d
  = match element_resolver x with
    | Ok h => (Ok tt, <[typeof f := PList [h]]> ∅)
    | Raise _ => (Ok tt, <[typeof f := PList []]> ∅)
    end.
Proof.
  intros H. unfold RuleElement.add. rewrite (start_list_marker f d H), get_insert.
  destruct x as [h|[h|]]; simpl; try reflexivity;
    now rewrite insert_insert_eq.
Qed.

Lemma add_many_in_marker_state (f : field) (l : list item)
      (d : gmap string pyvalue) :
  in_marker_state d = true ->
  RuleElement.add_many f (Items l) d
  = (Ok tt, <[typeof f := PList (element_resolver_list l)]> ∅).
Proof.
  intros H. unfold RuleElement.add_many. rewrite (start_list_marker f d H).
  now rewrite insert_insert_eq.
Qed.

Lemma set_any_marker (d : gmap string pyvalue) :
  in_marker_state (RuleElement.set_any d) = true.
Proof. reflexivity. Qed.

Lemma add_forms (f : field) (x : item) (d : gmap string pyvalue) :
  (forms_active f (snd (RuleElement.add f x d)) <= 1)%nat.
Proof.
  destruct (in_marker_state d) eqn:H.
  - rewrite (add_in_marker_state f x d H).
    destruct (element_resolver x); simpl; now rewrite forms_of_list.
  - unfold RuleElement.add. rewrite (start_list_plain f d H).
    destruct (NestedDict.get (typeof f) d); simpl; try now apply forms_plain.
    destruct (element_resolver x) as [h|[]]; simpl;
      first [ now apply forms_insert_plain | now apply forms_plain ].
Qed.

Lemma add_many_forms (f : field) (l : list item) (d : gmap string pyvalue) :
  (forms_active f (snd (RuleElement.add_many f (Items l) d)) <= 1)%nat.
Proof.
  destruct (in_marker_state d) eqn:H.
  - rewrite (add_many_in_marker_state f l d H). simpl. now rewrite forms_of_list.
  - unfold RuleElement.add_many. rewrite (start_list_plain f d H). simpl.
    now apply forms_insert_plain.
Qed.

(** C5.  From every field state: [set_any] and [set_none] replace the
    whole field by the marker; after [set_any], [set_none], [add] and
    [add_many] (of a list) at most one of the three forms is present; in a
    marker state [add] of a resolvable item leaves the one-element list
    and [add_many] leaves the list of the resolved items, the empty list
    for [add_many([])]; and [set_any] then [add] of a resolvable item
    leaves the one-element list. *)
Theorem field_forms_exclusive (f : field) (d : gmap string pyvalue) :
  RuleElement.set_any d = <["any" := PBool true]> ∅
  /\ RuleElement.set_none d = <["none" := PBool true]> ∅
  /\ forms_active f (RuleElement.set_any d) = 1%nat
  /\ forms_active f (RuleElement.set_none d) = 1%nat
  /\ (forall x, (forms_active f (snd (RuleElement.add f x d)) <= 1)%nat)
  /\ (forall l,
         (forms_active f (snd (RuleElement.add_many f (Items l) d)) <= 1)%nat)
  /\ (in_marker_state d = true ->
      (forall x h, element_resolver x = Ok h ->
                   RuleElement.add f x d
                   = (Ok tt, <[typeof f := PList [h]]> ∅))
      /\ (forall l,
             RuleElement.add_many f (Items l) d
             = (Ok tt, <[typeof f := PList (element_resolver_list l)]> ∅))
      /\ RuleElement.add_many f (Items []) d
         = (Ok tt, <[typeof f := PList []]> ∅))
  /\ (forall x h, element_resolver x = Ok h ->
                  RuleElement.add f x (RuleElement.set_any d)
                  = (Ok tt, <[typeof f := PList [h]]> ∅)).
Proof.
  split; [reflexivity|]. split; [reflexivity|].
  split; [destruct f; reflexivity|]. split; [destruct f; reflexivity|].
  split; [intros x; apply add_forms|].
  split; [intros l; apply add_many_forms|].
  split.
  - intros H. split; [|split].
    + intros x h Hx. rewrite (add_in_marker_state f x d H), Hx. reflexivity.
    + intros l. now apply add_many_in_marker_state.
    + now apply add_many_in_marker_state.
  - intros x h Hx.
    rewrite (add_in_marker_state f x _ (set_any_marker d)), Hx. reflexivity.
Qed.

(** [set_any] then [add] on a field that held two locators, and
    [add_many([])] on the [none] marker. *)
Lemma field_forms_exclusive_witness :
  RuleElement.add Source (Element (Some "http://smc/elements/host/1"))
                  (RuleElement.set_any (<["src" := PList ["a"; "b"]]> ∅))
  = (Ok tt, <["src" := PList ["http://smc/elements/host/1"]]> ∅)
  /\ RuleElement.add_many Source (Items []) (<["none" := PBool true]> ∅)
     = (Ok tt, <["src" := PList []]> ∅).
Proof.
  split.
  - exact (proj2 (proj2 (proj2 (proj2 (proj2 (proj2 (proj2
             (field_forms_exclusive Source (<["src" := PList ["a"; "b"]]> ∅))))))))
             (Element (Some "http://smc/elements/host/1")) _ eq_refl).
  - exact (proj2 (proj2 (proj1 (proj2 (proj2 (proj2 (proj2 (proj2 (proj2
             (field_forms_exclusive Source (<["none" := PBool true]> ∅))))))))
             eq_refl))).
Defined.

(** C6 (the code at the failing input).  In a marker state [all] returns
    the empty list, and [all_as_href] returns [None]: it has no [return]
    for that case. *)
Theorem all_as_href_marker_returns_None (f : field) (d : gmap string pyvalue) :
  in_marker_state d = true ->
  RuleElement.all f d = Ok []
  /\ RuleElement.all_as_href f d = Ok None.
Proof.
  unfold in_marker_state, RuleElement.all, RuleElement.all_as_href.
  intros H. destruct (RuleElement.is_none d), (RuleElement.is_any d);
    try discriminate; split; reflexivity.
Qed.

(** The field set to [any]. *)
Lemma all_as_href_marker_returns_None_witness :
  RuleElement.all Source (RuleElement.set_any ∅) = Ok []
  /\ RuleElement.all_as_href Source (RuleElement.set_any ∅) = Ok None.
Proof.
  exact (all_as_href_marker_returns_None Source (RuleElement.set_any ∅) eq_refl).
Defined.

(** C7.  [add] of an item whose resolution fails with [ElementNotFound]
    raises nothing: in a marker state the field is left as the empty
    explicit list (the marker stays cleared), and a field holding an
    explicit list is left as it was. *)
Theorem add_skips_unresolved (f : field) (x : item) (d : gmap string pyvalue) :
  element_resolver x = Raise ElementNotFound ->
  (in_marker_state d = true ->
   RuleElement.add f x d = (Ok tt, <[typeof f := PList []]> ∅))
  /\ (in_marker_state d = false -> holds_list f d ->
      RuleElement.add f x d = (Ok tt, d)).
Proof.
  intros Hx. split.
  - intros H. rewrite (add_in_marker_state f x d H), Hx. reflexivity.
  - intros H [l Hl]. unfold RuleElement.add.
    rewrite (start_list_plain f d H). unfold NestedDict.get.
    rewrite Hl, Hx. reflexivity.
Qed.

(** An element that cannot be found, added to the [any] marker and to a
    list of one locator. *)
Lemma add_skips_unresolved_witness :
  RuleElement.add Destination (Element None) (<["any" := PBool true]> ∅)
  = (Ok tt, <["dst" := PList []]> ∅)
  /\ RuleElement.add Destination (Element None) (<["dst" := PList ["a"]]> ∅)
     = (Ok tt, <["dst" := PList ["a"]]> ∅).
Proof.
  split.
  - exact (proj1 (add_skips_unresolved Destination (Element None)
                    (<["any" := PBool true]> ∅) eq_refl) eq_refl).
  - exact (proj2 (add_skips_unresolved Destination (Element None)
                    (<["dst" := PList ["a"]]> ∅) eq_refl) eq_refl
                 (ex_intro _ ["a"] eq_refl)).
Defined.

(** ** Log options *)

Lemma accounting_after_level (value : pyvalue) (d : gmap string pyvalue) :
  accounting_typed d ->
  accounting_typed
    (if LogOptions.allowed_level value
     then NestedDict.update "log_level" value d else d).
Proof.
  intros H. destruct (LogOptions.allowed_level value); [|exact H].
  unfold accounting_typed, NestedDict.update in *.
  rewrite lookup_insert_ne by discriminate. exact H.
Qed.

Lemma accounting_forced (d : gmap string pyvalue) :
  accounting_typed d ->
  LogOptions.log_accounting_info_mode
    (if negb (truthy (LogOptions.log_accounting_info_mode d))
     then LogOptions.set_log_accounting_info_mode (PBool true) d
     else d)
  = PBool true.
Proof.
  unfold LogOptions.log_accounting_info_mode,
    LogOptions.set_log_accounting_info_mode, NestedDict.update, NestedDict.get.
  intros [H|[[|] H]]; rewrite H; simpl;
    first [ now rewrite lookup_insert_eq | now rewrite H ].
Qed.

(** C10.  For every value passed to the [log_level] setter, on options
    whose [log_accounting_info_mode] is missing or a boolean:
    [log_accounting_info_mode] is [True] afterwards; [log_level] is
    unchanged when the value is outside the allowed five, and is the value
    otherwise. *)
Theorem log_level_forces_accounting (value : pyvalue)
        (d : gmap string pyvalue) :
  accounting_typed d ->
  LogOptions.log_accounting_info_mode (LogOptions.set_log_level value d)
  = PBool true
  /\ (LogOptions.allowed_level value = false ->
      LogOptions.log_level (LogOptions.set_log_level value d)
      = LogOptions.log_level d)
  /\ (LogOptions.allowed_level value = true ->
      LogOptions.log_level (LogOptions.set_log_level value d) = value).
Proof.
  intros H. unfold LogOptions.set_log_level. split.
  - apply accounting_forced. now apply accounting_after_level.
  - unfold LogOptions.log_level, LogOptions.set_log_accounting_info_mode,
      NestedDict.update, NestedDict.get.
    split; intros ->;
      destruct (negb (truthy (LogOptions.log_accounting_info_mode _)));
      rewrite ?lookup_insert_ne by discriminate;
      rewrite ?lookup_insert_eq; reflexivity.
Qed.

(** The default options and the level [verbose], which is not allowed. *)
Lemma log_level_forces_accounting_witness :
  LogOptions.log_accounting_info_mode
    (LogOptions.set_log_level (PStr "verbose") LogOptions.__init__)
  = PBool true
  /\ LogOptions.log_level
       (LogOptions.set_log_level (PStr "verbose") LogOptions.__init__)
     = PStr "undefined".
Proof.
  pose proof (log_level_forces_accounting (PStr "verbose") LogOptions.__init__
                (or_intror (ex_intro _ false eq_refl))) as H.
  exact (conj (proj1 H) (proj1 (proj2 H) eq_refl)).
Defined.

(** ** Floats *)

Section Rounding.

Lemma shr_1_nonneg (mrs : shr_record) :
  0 <= shr_m mrs -> 0 <= shr_m (shr_1 mrs).
Proof.
  destruct mrs as [m r s]. simpl.
  destruct m as [|[p|p|]|[p|p|]]; simpl; lia.
Qed.

Lemma iter_pos_nonneg (p : positive) (mrs : shr_record) :
  0 <= shr_m mrs -> 0 <= shr_m (SpecFloat.iter_pos shr_1 p mrs).
Proof.
  revert mrs. induction p as [p IH|p IH|]; intros mrs H; simpl.
  - apply IH, IH, shr_1_nonneg, H.
  - apply IH, IH, H.
  - apply shr_1_nonneg, H.
Qed.

Lemma shr_nonneg (mrs : shr_record) (e n : Z) :
  0 <= shr_m mrs -> 0 <= shr_m (fst (shr mrs e n)).
Proof.
  intros H. destruct n; simpl; auto. now apply iter_pos_nonneg.
Qed.

Lemma shr_fexp_nonneg (m e : Z) (l : location) :
  0 <= m -> 0 <= shr_m (fst (shr_fexp prec emax m e l)).
Proof.
  intros H. unfold shr_fexp. apply shr_nonneg.
  destruct l as [|[]]; exact H.
Qed.

Lemma round_nearest_even_nonneg (m : Z) (l : location) :
  0 <= m -> 0 <= round_nearest_even m l.
Proof.
  intros H. destruct l as [|[]]; simpl; try lia.
  destruct (Z.even m); lia.
Qed.

Lemma binary_round_aux_not_nan (sx : bool) (mx ex : Z) (lx : location) :
  0 <= mx -> is_nan (binary_round_aux prec emax sx mx ex lx) = false.
Proof.
  intros H. unfold binary_round_aux.
  pose proof (shr_fexp_nonneg mx ex lx H) as H1.
  destruct (shr_fexp prec emax mx ex lx) as [mrs' e']. simpl in H1.
  pose proof (shr_fexp_nonneg _ e' loc_Exact
                (round_nearest_even_nonneg _ (loc_of_shr_record mrs') H1)) as H2.
  destruct (shr_fexp prec emax _ e' loc_Exact) as [mrs'' e'']. simpl in H2.
  destruct (shr_m mrs''); [reflexivity | | lia].
  destruct (e'' <=? emax - prec); reflexivity.
Qed.

Lemma SFdiv_core_nonneg (m1 m2 : positive) (e1 e2 : Z) :
  0 <= fst (fst (SFdiv_core_binary prec emax (Z.pos m1) e1 (Z.pos m2) e2)).
Proof.
  unfold SFdiv_core_binary.
  set (s := _ - _ - _).
  set (m' := match s with Z.pos _ => Z.shiftl (Z.pos m1) s | 0 => Z.pos m1 | Z.neg _ => 0 end).
  assert (Hm : 0 <= m').
  { subst m'. destruct s; try lia. apply Z.shiftl_nonneg. lia. }
  pose proof (Z_div_mod m' (Z.pos m2) ltac:(lia)) as H.
  destruct (Z.div_eucl m' (Z.pos m2)) as [q r]. simpl. nia.
Qed.

Lemma SFdiv_integers_not_nan (sg : bool) (p q : positive) :
  is_nan (SFdiv prec emax (S754_finite sg p 0) (S754_finite false q 0))
  = false.
Proof.
  unfold SFdiv.
  pose proof (SFdiv_core_nonneg p q 0 0) as H.
  destruct (SFdiv_core_binary _ _ _ _ _ _) as [[mz ez] lz]. simpl in H.
  now apply binary_round_aux_not_nan.
Qed.

Lemma float_of_decimal_not_nan (sg : bool) (m e : Z) :
  is_nan (float_of_decimal sg m e) = false.
Proof.
  unfold float_of_decimal. destruct m as [|p|p]; try reflexivity.
  apply SFdiv_integers_not_nan.
Qed.

End Rounding.

Lemma SFltb_key (a b : spec_float) :
  is_nan a = false -> is_nan b = false ->
  (SFltb a b = true <-> key_lt (float_key a) (float_key b)).
Proof.
  unfold SFltb, key_lt.
  destruct a as [[]|[]| |[] ma ea], b as [[]|[]| |[] mb eb];
    simpl; intros Ha Hb; try discriminate;
    try (split; [discriminate | lia]);
    try (split; [lia | reflexivity]);
    try (split; [intros _; lia | reflexivity]).
  - destruct (Z.compare_spec ea eb) as [->|H|H];
      [ change (PosDef.Pos.compare_cont Eq ma mb) with (Pos.compare ma mb);
        destruct (Pos.compare_spec ma mb) as [->|H|H]; simpl | | ];
      split; try discriminate; try reflexivity; try lia.
  - destruct (Z.compare_spec ea eb) as [->|H|H];
      [ change (PosDef.Pos.compare_cont Eq ma mb) with (Pos.compare ma mb);
        destruct (Pos.compare_spec ma mb) as [->|H|H]; simpl | | ];
      split; try discriminate; try reflexivity; try lia.
Qed.

Lemma SFltb_trans (a b c : spec_float) :
  is_nan a = false -> is_nan b = false -> is_nan c = false ->
  SFltb a b = true -> SFltb b c = true -> SFltb a c = true.
Proof.
  intros Ha Hb Hc. rewrite !SFltb_key by assumption.
  unfold key_lt. destruct (float_key a) as [[? ?] ?],
    (float_key b) as [[? ?] ?], (float_key c) as [[? ?] ?]. lia.
Qed.

Lemma SFltb_negtrans (a b c : spec_float) :
  is_nan a = false -> is_nan b = false -> is_nan c = false ->
  SFltb a b = false -> SFltb b c = false -> SFltb a c = false.
Proof.
  intros Ha Hb Hc Hab Hbc.
  destruct (SFltb a c) eqn:Hac; [|reflexivity].
  apply SFltb_key in Hac; try assumption.
  assert (Nab : ~ key_lt (float_key a) (float_key b)).
  { rewrite <- SFltb_key by assumption. congruence. }
  assert (Nbc : ~ key_lt (float_key b) (float_key c)).
  { rewrite <- SFltb_key by assumption. congruence. }
  exfalso. unfold key_lt in *.
  destruct (float_key a) as [[? ?] ?], (float_key b) as [[? ?] ?],
    (float_key c) as [[? ?] ?]. lia.
Qed.

Lemma SFltb_irrefl (a : spec_float) : SFltb a a = false.
Proof.
  destruct (is_nan a) eqn:Ha.
  - destruct a; try discriminate. reflexivity.
  - destruct (SFltb a a) eqn:H; [|reflexivity].
    apply SFltb_key in H; try assumption.
    unfold key_lt in H. destruct (float_key a) as [[? ?] ?]. lia.
Qed.

(** ** max *)

Lemma max_from_spec (l : list spec_float) (cur : spec_float) :
  Forall (fun f => is_nan f = false) (cur :: l) ->
  In (max_from cur l) (cur :: l)
  /\ is_nan (max_from cur l) = false
  /\ forall f, In f (cur :: l) -> SFltb (max_from cur l) f = false.
Proof.
  revert cur. induction l as [|x l IH]; intros cur H.
  - simpl. inversion H; subst. repeat split; auto.
    intros f [<-|[]]. apply SFltb_irrefl.
  - inversion H as [|? ? Hcur Hxl]; subst.
    inversion Hxl as [|? ? Hx Hl]; subst.
    cbn [max_from].
    destruct (SFltb cur x) eqn:Hcx.
    + destruct (IH x Hxl) as (Hin & Hnan & Hub).
      split; [right; exact Hin|]. split; [exact Hnan|].
      intros f [<-|Hf]; [|now apply Hub].
      destruct (SFltb (max_from x l) cur) eqn:E; [|reflexivity].
      rewrite <- (Hub x (or_introl eq_refl)).
      symmetry. now apply (SFltb_trans _ cur x).
    + assert (Hcl : Forall (fun f => is_nan f = false) (cur :: l))
        by (constructor; assumption).
      destruct (IH cur Hcl) as (Hin & Hnan & Hub).
      split; [destruct Hin as [<-|Hin]; [left; reflexivity | right; right; exact Hin]|].
      split; [exact Hnan|].
      intros f [<-|[<-|Hf]].
      * apply Hub. now left.
      * apply (SFltb_negtrans _ cur x); auto. apply Hub. now left.
      * apply Hub. now right.
Qed.

(** ** Decimal numerals *)

Lemma length_list_ascii (s : string) :
  length (list_ascii_of_string s) = String.length s.
Proof. induction s as [|c s IH]; simpl; [reflexivity | now rewrite IH]. Qed.

Lemma list_ascii_app (a b : string) :
  list_ascii_of_string (a ++ b)
  = list_ascii_of_string a ++ list_ascii_of_string b.
Proof. induction a as [|c a IH]; simpl; [reflexivity | now rewrite IH]. Qed.

Lemma numeral_char_plain (c : ascii) :
  numeral_char c = true ->
  unmodelled_char c = false /\ is_space c = false /\ lower c = c
  /\ Ascii.eqb c "e" = false /\ Ascii.eqb c "i" = false
  /\ Ascii.eqb c "n" = false.
Proof.
  destruct c as [[] [] [] [] [] [] [] []]; vm_compute; intros H;
    try discriminate H; repeat split.
Qed.

Lemma lstrip_solid (l : list ascii) :
  Forall (fun c => is_space c = false) l -> lstrip l = l.
Proof. intros H. destruct H as [|c l Hc _]; simpl; [reflexivity | now rewrite Hc]. Qed.

Lemma strip_solid (l : list ascii) :
  Forall (fun c => is_space c = false) l -> strip l = l.
Proof.
  intros H. unfold strip. rewrite (lstrip_solid l H).
  rewrite lstrip_solid by (apply List.Forall_rev, H).
  apply rev_involutive.
Qed.

Lemma split_exponent_numeral (l : list ascii) :
  Forall (fun c => numeral_char c = true) l -> split_exponent l = (l, None).
Proof.
  induction 1 as [|c l Hc _ IH]; [reflexivity|].
  cbn [split_exponent].
  destruct (numeral_char_plain c Hc) as (_ & _ & -> & -> & _).
  now rewrite IH.
Qed.

Lemma map_lower_numeral (l : list ascii) :
  Forall (fun c => numeral_char c = true) l -> map lower l = l.
Proof.
  induction 1 as [|c l Hc _ IH]; [reflexivity|].
  cbn [map]. destruct (numeral_char_plain c Hc) as (_ & _ & -> & _).
  now rewrite IH.
Qed.

(** ** The digits, read both ways *)

Lemma of_uint_cons (d : Decimal.uint -> Decimal.uint) (k : N)
      (u : Decimal.uint) :
  DecimalPos.Unsigned.of_lu (d Decimal.Nil) = k ->
  (forall x y, Decimal.revapp (d x) y = Decimal.revapp x (d y)) ->
  N.of_uint (d u)
  = (k * 10 ^ DecimalPos.Unsigned.usize u + N.of_uint u)%N.
Proof.
  intros Hk Hrev.
  unfold N.of_uint. rewrite !DecimalPos.Unsigned.of_uint_alt.
  unfold Decimal.rev. rewrite Hrev.
  rewrite DecimalPos.Unsigned.of_lu_revapp, Hk.
  unfold Decimal.rev. lia.
Qed.

Lemma digits_of_uint (u : Decimal.uint) (acc : Z) :
  digits_value acc
    (list_ascii_of_string (DecimalString.NilEmpty.string_of_uint u))
  = Some (acc * 10 ^ Z.of_N (DecimalPos.Unsigned.usize u)
          + Z.of_N (N.of_uint u)).
Proof.
  revert acc.
  induction u as [|u IH|u IH|u IH|u IH|u IH|u IH|u IH|u IH|u IH|u IH];
    intros acc;
    [ simpl; f_equal; lia | .. ];
    cbn [DecimalString.NilEmpty.string_of_uint list_ascii_of_string
         digits_value];
    match goal with
    | |- context [digit_of ?c] =>
        let v := eval vm_compute in (digit_of c) in
        change (digit_of c) with v; cbv iota
    end;
    rewrite IH; f_equal;
    match goal with
    | |- context [N.of_uint (?d u)] =>
        let k := eval vm_compute in (DecimalPos.Unsigned.of_lu (d Decimal.Nil)) in
        rewrite (of_uint_cons d k u eq_refl) by reflexivity
    end;
    cbn [DecimalPos.Unsigned.usize];
    rewrite N2Z.inj_add, N2Z.inj_mul, N2Z.inj_pow, N2Z.inj_succ,
      Z.pow_succ_r by lia;
    cbn [Z.of_N]; ring.
Qed.

Lemma uint_numeral (u : Decimal.uint) :
  Forall (fun c => numeral_char c = true)
    (list_ascii_of_string (DecimalString.NilEmpty.string_of_uint u)).
Proof.
  induction u; cbn [DecimalString.NilEmpty.string_of_uint list_ascii_of_string];
    constructor; auto.
Qed.

Lemma uint_nonempty (u : Decimal.uint) :
  u <> Decimal.Nil ->
  list_ascii_of_string (DecimalString.NilEmpty.string_of_uint u) <> [].
Proof. destruct u; intros H; [congruence | discriminate ..]. Qed.

(** ** Sign and point, read both ways *)

Lemma sign_agrees (v : string) :
  strip_sign (list_ascii_of_string v)
  = (fst (spec_unsigned v), list_ascii_of_string (snd (spec_unsigned v))).
Proof.
  destruct v as [|c r]; [reflexivity|].
  cbn [list_ascii_of_string strip_sign spec_unsigned].
  destruct (Ascii.eqb c "-"); [reflexivity|].
  destruct (Ascii.eqb c "+"); reflexivity.
Qed.

Lemma sign_chars (v : string) (P : ascii -> Prop) :
  P "-"%char -> P "+"%char ->
  Forall P (list_ascii_of_string (snd (spec_unsigned v))) ->
  Forall P (list_ascii_of_string v).
Proof.
  intros Hm Hp. destruct v as [|c r]; [auto|].
  cbn [spec_unsigned].
  destruct (Ascii.eqb_spec c "-") as [->|_]; [now constructor|].
  destruct (Ascii.eqb_spec c "+") as [->|_]; [now constructor|auto].
Qed.

Lemma split_agrees (r : string) :
  fst (split_point (list_ascii_of_string r))
  = list_ascii_of_string (spec_integer_part r)
  /\ match snd (split_point (list_ascii_of_string r)) with
     | Some f => f
     | None => []
     end = list_ascii_of_string (spec_fraction_part r).
Proof.
  induction r as [|c r [IH1 IH2]]; [split; reflexivity|].
  cbn [list_ascii_of_string split_point spec_integer_part spec_fraction_part].
  destruct (Ascii.eqb c "."); [split; reflexivity|].
  destruct (split_point (list_ascii_of_string r)) as [a b].
  cbn [fst snd] in *. now rewrite IH1.
Qed.

Lemma parts_chars (r : string) (P : ascii -> Prop) :
  P "."%char ->
  Forall P (list_ascii_of_string (spec_integer_part r)) ->
  Forall P (list_ascii_of_string (spec_fraction_part r)) ->
  Forall P (list_ascii_of_string r).
Proof.
  intros Hpt. induction r as [|c r IH]; [constructor|].
  cbn [list_ascii_of_string spec_integer_part spec_fraction_part].
  destruct (Ascii.eqb_spec c ".") as [->|_].
  - intros _ H. now constructor.
  - cbn [list_ascii_of_string]. intros H1 H2.
    inversion H1; subst. constructor; auto.
Qed.

Lemma pow10_iter (k : nat) :
  Z.pos (Nat.iter k (Pos.mul 10) 1%positive) = 10 ^ Z.of_nat k.
Proof.
  induction k as [|k IH]; [reflexivity|].
  rewrite Nat2Z.inj_succ, Z.pow_succ_r by lia.
  change (Z.pos (10 * Nat.iter k (Pos.mul 10) 1%positive)
          = 10 * 10 ^ Z.of_nat k).
  now rewrite Pos2Z.inj_mul, IH.
Qed.

Lemma float_of_decimal_spec (sg : bool) (n : N) (k : nat) :
  float_of_decimal sg (Z.of_N n) (0 - Z.of_nat k) = spec_binary64 sg n k.
Proof.
  destruct n as [|p]; [reflexivity|].
  unfold float_of_decimal, spec_binary64. cbn [Z.of_N].
  rewrite Z.max_l by lia.
  replace (Z.max 0 (- (0 - Z.of_nat k))) with (Z.of_nat k) by lia.
  rewrite <- pow10_iter. cbn [Z.pow Z.to_pos Z.pow_pos Pos.iter Z.mul].
  now rewrite Pos.mul_1_r.
Qed.

(** ** float on a decimal numeral *)

Lemma numeral_not_word (l : list ascii) (w : string) (c : ascii) :
  Forall (fun c => numeral_char c = true) l -> l <> [] ->
  numeral_char c = false ->
  String.eqb (string_of_list_ascii l) (String c w) = false.
Proof.
  intros Hl Hne Hc. destruct Hl as [|x l Hx _]; [congruence|].
  cbn [string_of_list_ascii String.eqb].
  destruct (Ascii.eqb_spec x c) as [->|_]; [congruence | reflexivity].
Qed.

Lemma py_float_decimal (v : string) (sg : bool) (n : N) (k : nat) :
  spec_version_number v = Some (sg, n, k) ->
  py_float v = Ok (spec_binary64 sg n k).
Proof.
  unfold spec_version_number.
  pose proof (sign_agrees v) as Hsign.
  pose proof (sign_chars v) as Hchars.
  destruct (spec_unsigned v) as [sg' r]. cbn [fst snd] in Hsign, Hchars.
  destruct (split_agrees r) as [Hip Hfp].
  pose proof (parts_chars r) as Hparts.
  set (ip := spec_integer_part r) in *.
  set (fp := spec_fraction_part r) in *.
  destruct (DecimalString.NilEmpty.uint_of_string (ip ++ fp)) as [u|] eqn:Hu;
    [|discriminate].
  apply DecimalString.NilEmpty.sus in Hu.
  intros H.
  assert (Hnil : u <> Decimal.Nil) by (intros ->; discriminate H).
  assert (E : (sg', N.of_uint u, String.length fp) = (sg, n, k))
    by (destruct u; congruence).
  injection E as -> <- <-. clear H.
  pose proof (uint_numeral u) as Hnum.
  pose proof (uint_nonempty u Hnil) as Hne.
  pose proof (digits_of_uint u 0) as Hval.
  rewrite Hu, list_ascii_app in Hnum, Hne, Hval.
  apply Forall_app in Hnum as [Hnip Hnfp].
  assert (Hbody : Forall (fun c => numeral_char c = true)
                         (list_ascii_of_string r))
    by (apply Hparts; [reflexivity | assumption ..]).
  assert (Hr : list_ascii_of_string r <> []).
  { intros Hr. rewrite Hr in Hip, Hfp. cbn in Hip, Hfp.
    rewrite <- Hip, <- Hfp in Hne. now apply Hne. }
  unfold py_float.
  assert (Hmod : existsb unmodelled_char (list_ascii_of_string v) = false).
  { apply not_true_is_false. intros Hex.
    apply existsb_exists in Hex as (c & Hin & Hc).
    assert (Hall : Forall (fun c => unmodelled_char c = false)
                          (list_ascii_of_string v)).
    { apply Hchars; [reflexivity | reflexivity |].
      eapply List.Forall_impl; [|exact Hbody]. intros a Ha.
      now apply numeral_char_plain in Ha. }
    rewrite List.Forall_forall in Hall. rewrite (Hall c Hin) in Hc. discriminate. }
  rewrite Hmod.
  rewrite strip_solid.
  2:{ apply Hchars; [reflexivity | reflexivity |].
      eapply List.Forall_impl; [|exact Hbody]. intros a Ha.
      now apply numeral_char_plain in Ha. }
  rewrite Hsign. rewrite (map_lower_numeral _ Hbody).
  rewrite !(numeral_not_word _ _ _ Hbody Hr) by reflexivity.
  cbn [orb]. rewrite (split_exponent_numeral _ Hbody).
  unfold parse_decimal.
  destruct (split_point (list_ascii_of_string r)) as [a b].
  cbn [fst snd] in Hip, Hfp. rewrite Hip, Hfp.
  destruct (list_ascii_of_string ip ++ list_ascii_of_string fp) as [|c l] eqn:El;
    [congruence|].
  rewrite Hval. cbn [parse_exponent]. rewrite length_list_ascii.
  rewrite Z.mul_0_l, Z.add_0_l. apply f_equal, float_of_decimal_spec.
Qed.

Lemma spec_binary64_not_nan (sg : bool) (n : N) (k : nat) :
  is_nan (spec_binary64 sg n k) = false.
Proof.
  destruct n as [|p]; [reflexivity|]. apply SFdiv_integers_not_nan.
Qed.

Lemma floats_of_decimals (vs : list string) :
  Forall (fun v => is_decimal v = true) vs ->
  exists fs, floats_of vs = Ok fs
             /\ Forall2 (fun v f => spec_version_float v = Some f) vs fs
             /\ Forall (fun f => is_nan f = false) fs.
Proof.
  induction 1 as [|v vs Hv _ (fs & Hfs & Hrel & Hnan)].
  - exists []. repeat split; constructor.
  - unfold is_decimal in Hv. cbn [floats_of].
    destruct (spec_version_number v) as [[[sg n] k]|] eqn:Hn; [|discriminate].
    rewrite (py_float_decimal v sg n k Hn), Hfs.
    eexists; split; [reflexivity|]. split.
    + constructor; [|exact Hrel]. unfold spec_version_float. now rewrite Hn.
    + constructor; [apply spec_binary64_not_nan | exact Hnan].
Qed.

Lemma py_max_spec (fs : list spec_float) :
  fs <> [] -> Forall (fun f => is_nan f = false) fs ->
  exists m, py_max fs = Ok m
            /\ In m fs
            /\ forall f, In f fs -> SFltb m f = false.
Proof.
  intros Hne Hnan. destruct fs as [|x l]; [congruence|].
  destruct (max_from_spec l x Hnan) as (Hin & _ & Hub).
  exists (max_from x l). repeat split; auto.
Qed.

(** ** Version negotiation *)

Lemma discover_version_replied (c : SessionCache) (w : World) (url : string)
      (t : Z) (r1 : response) (j1 : json_doc) (rest : list outcome)
      (vs : list string) (fs : list spec_float) (m : spec_float) :
  pending w = Reply r1 :: rest ->
  text r1 = Json j1 -> j_version j1 = Some vs ->
  floats_of vs = Ok fs -> py_max fs = Ok m ->
  SessionCache.discover_version url t (c, w)
  = (Ok (PFloat m),
     (c, mkWorld rest (GET [Lit url; Lit "/api"] t :: sent w) (logged w)
                 (config_file w) (handles w))).
Proof.
  intros Hp Ht Hv Hfs Hm.
  unfold SessionCache.discover_version, bind, send, world_send.
  rewrite Hp, Ht. cbn [SessionCache.json_loads ret].
  rewrite Hv. cbn [SessionCache.of_key ret]. rewrite Hfs.
  cbn [SessionCache.of_result ret]. rewrite Hm. reflexivity.
Qed.

Lemma get_api_entry_discovers (c : SessionCache) (w : World) (url : string)
      (t : Z) (r1 r2 : response) (j1 j2 : json_doc) (rest : list outcome)
      (vs : list string) (fs : list spec_float) (m : spec_float) :
  pending w = Reply r1 :: Reply r2 :: rest ->
  text r1 = Json j1 -> j_version j1 = Some vs ->
  floats_of vs = Ok fs -> py_max fs = Ok m ->
  status_code r2 = 200 -> text r2 = Json j2 ->
  api_version (fst (snd (SessionCache.get_api_entry url PNone t (c, w))))
  = PFloat m.
Proof.
  intros Hp Ht Hv Hfs Hm Hs Hj.
  unfold SessionCache.get_api_entry, wrap_request_exception.
  unfold bind at 1.
  rewrite (discover_version_replied c w url t r1 j1 _ vs fs m Hp Ht Hv Hfs Hm).
  unfold bind, logger, send, world_send, world_log.
  cbn [pending sent logged config_file handles]. rewrite Hs, Hj.
  cbn [Z.eqb Pos.eqb SessionCache.json_loads ret set_self].
  destruct (j_entry_point j2); reflexivity.
Qed.

Lemma on_cache_read {A} (g : SessionCache -> result A) (s : Session)
      (w : World) :
  Session.on_cache (c <- self ;; Session.of_result (g c)) (s, w)
  = (g (Session.cache s), (Session.set_cache (Session.cache s) s, w)).
Proof.
  unfold Session.on_cache, bind, self, Session.of_result, SessionCache.of_result.
  destruct (g (Session.cache s)); reflexivity.
Qed.

Lemma preserves_on_cache_read {A} (P : Session -> Prop)
      (g : SessionCache -> result A) :
  (forall s, P s -> P (Session.set_cache (Session.cache s) s)) ->
  preserves P (Session.on_cache (c <- self ;; Session.of_result (g c))).
Proof.
  intros HP [s w] H. rewrite on_cache_read. now apply HP.
Qed.

Lemma login_session_negotiates (s : Session) (w : World) (u : string)
      (r1 r2 : response) (j1 j2 : json_doc) (rest : list outcome)
      (vs : list string) (fs : list spec_float) (m : spec_float) :
  _url s = Some u ->
  pending w = Reply r1 :: Reply r2 :: rest ->
  text r1 = Json j1 -> j_version j1 = Some vs ->
  floats_of vs = Ok fs -> py_max fs = Ok m ->
  status_code r2 = 200 -> text r2 = Json j2 ->
  api_version (Session.cache (fst (snd (Session.login_session PNone (s, w)))))
  = PFloat m.
Proof.
  intros Hu Hp Ht Hv Hfs Hm Hs Hj.
  unfold Session.login_session.
  unfold bind at 1. cbn [self]. rewrite Hu. unfold bind at 1. cbn [Session.of_attr ret].
  apply (bind_post (fun s' => api_version (Session.cache s') = PFloat m)).
  - unfold Session.on_cache.
    pose proof (get_api_entry_discovers (Session.cache s) w u (_timeout s)
                  r1 r2 j1 j2 rest vs fs m Hp Ht Hv Hfs Hm Hs Hj) as H.
    destruct (SessionCache.get_api_entry u PNone (_timeout s) (Session.cache s, w))
      as [r [c' w']]. exact H.
  - intros _.
    apply preserves_bind; [apply preserves_requests_session | intros h].
    apply preserves_bind; [apply preserves_on_cache_read; auto | intros address].
    apply preserves_bind; [apply preserves_self | intros s'].
    apply preserves_bind; [apply preserves_of_attr | intros key].
    apply preserves_bind; [apply preserves_send | intros r].
    destruct (status_code r =? 200); [|apply preserves_raise].
    apply preserves_bind; [apply preserves_set_self; auto | intros _].
    apply preserves_bind; [apply preserves_logger | intros _].
    apply preserves_set_self; auto.
Qed.

Lemma Forall2_In_r {A B} (R : A -> B -> Prop) (l : list A) (l' : list B)
      (b : B) :
  Forall2 R l l' -> In b l' -> exists a, In a l /\ R a b.
Proof.
  induction 1 as [|x y l l' Hxy _ IH]; intros Hin; [destruct Hin|].
  destruct Hin as [<-|Hin].
  - exists x. split; [now left | exact Hxy].
  - destruct (IH Hin) as (a & Ha & HR). exists a. split; [now right | exact HR].
Qed.

Lemma Forall2_In_l {A B} (R : A -> B -> Prop) (l : list A) (l' : list B)
      (a : A) :
  Forall2 R l l' -> In a l -> exists b, In b l' /\ R a b.
Proof.
  induction 1 as [|x y l l' Hxy _ IH]; intros Hin; [destruct Hin|].
  destruct Hin as [<-|Hin].
  - exists y. split; [now left | exact Hxy].
  - destruct (IH Hin) as (b & Hb & HR). exists b. split; [now right | exact HR].
Qed.

(** C4.  [login] with an address and a credential and no version, when
    the version document lists the decimal numerals [vs] (not empty) and
    the entry-point query is answered with status 200 and a JSON body:
    the negotiated version is the float [m] that one of the listed
    identifiers [v] stands for, the binary64 nearest to the number [v]
    denotes by the standard library's reading of its digits, and no
    listed identifier stands for a float greater than [m]. *)
Theorem login_negotiates_maximum (s : Session) (w : World) (u k : string)
        (t : option Z) (vs : list string) (r1 r2 : response)
        (j1 j2 : json_doc) (rest : list outcome) :
  u <> "" -> k <> "" ->
  vs <> [] -> Forall (fun v => is_decimal v = true) vs ->
  pending w = Reply r1 :: Reply r2 :: rest ->
  text r1 = Json j1 -> j_version j1 = Some vs ->
  status_code r2 = 200 -> text r2 = Json j2 ->
  exists v m,
    In v vs
    /\ spec_version_float v = Some m
    /\ api_version
         (Session.cache
            (fst (snd (Session.login (Some u) (Some k) PNone t (s, w)))))
       = PFloat m
    /\ (forall v' m', In v' vs -> spec_version_float v' = Some m' ->
                      SFltb m m' = false).
Proof.
  intros Hu Hk Hne Hdec Hp Ht Hv Hs Hj.
  destruct (floats_of_decimals vs Hdec) as (fs & Hfs & Hrel & Hnan).
  assert (Hfne : fs <> []).
  { intros ->. inversion Hrel; subst. congruence. }
  destruct (py_max_spec fs Hfne Hnan) as (m & Hm & Hin & Hub).
  destruct (Forall2_In_r _ _ _ m Hrel Hin) as (v & Hv_in & Hv_m).
  exists v, m. split; [exact Hv_in|]. split; [exact Hv_m|]. split.
  - unfold Session.login, Session.nonempty.
    destruct (String.eqb_spec u ""); [contradiction|].
    destruct (String.eqb_spec k ""); [contradiction|].
    cbn [negb andb]. unfold Session.login_with.
    unfold bind at 1. cbn [set_self]. unfold bind at 1.
    destruct t as [t|]; [destruct (t =? 0)|]; cbn [ret set_self];
      eapply login_session_negotiates; eauto.
  - intros v' m' Hin' Hm'.
    destruct (Forall2_In_l _ _ _ v' Hrel Hin') as (f & Hf_in & Hf).
    rewrite Hm' in Hf. injection Hf as <-. now apply Hub.
Qed.

(** The version document lists 6.1, 6.2 and 6.5.  The theorem leaves one
    candidate: 6.1 and 6.2 stand for floats smaller than the float of
    6.5, so the negotiated version is the binary64 with mantissa
    7318349394477056 and exponent -50, which is exactly 65 tenths. *)
Lemma login_negotiates_maximum_witness :
  (exists v m,
      In v ["6.1"; "6.2"; "6.5"]
      /\ spec_version_float v = Some m
      /\ negotiated_3 = PFloat m
      /\ (forall v' m', In v' ["6.1"; "6.2"; "6.5"] ->
                        spec_version_float v' = Some m' ->
                        SFltb m m' = false))
  /\ negotiated_3 = PFloat (S754_finite false 7318349394477056 (-50))
  /\ spec_version_number "6.5" = Some (false, 65%N, 1%nat)
  /\ binary64_is (S754_finite false 7318349394477056 (-50)) 65 1 = true.
Proof.
  assert (H : exists v m,
             In v ["6.1"; "6.2"; "6.5"]
             /\ spec_version_float v = Some m
             /\ negotiated_3 = PFloat m
             /\ (forall v' m', In v' ["6.1"; "6.2"; "6.5"] ->
                               spec_version_float v' = Some m' ->
                               SFltb m m' = false)).
  { apply (login_negotiates_maximum Session.__init__ world_3
             "http://smc:8082" "K" None ["6.1"; "6.2"; "6.5"]
             (Response 200 (Json (JsonDoc (Some ["6.1"; "6.2"; "6.5"]) None)))
             (Response 200 (Json (JsonDoc None (Some directory_3))))
             (JsonDoc (Some ["6.1"; "6.2"; "6.5"]) None)
             (JsonDoc None (Some directory_3))
             [Reply (Response 200 NotJson)]).
    - discriminate.
    - discriminate.
    - discriminate.
    - repeat constructor.
    - reflexivity.
    - reflexivity.
    - reflexivity.
    - reflexivity.
    - reflexivity. }
  split; [exact H|]. split; [|split; reflexivity].
  destruct H as (v & m & Hin & Hm & Hneg & Hmax).
  rewrite Hneg. f_equal.
  pose proof (Hmax "6.5" (S754_finite false 7318349394477056 (-50))
                (or_intror (or_intror (or_introl eq_refl))) eq_refl) as H65.
  destruct Hin as [<-|[<-|[<-|[]]]]; vm_compute in Hm; injection Hm as <-.
  - discriminate H65.
  - discriminate H65.
  - reflexivity.
Defined.

(** ** More on rule fields *)

Lemma not_marker_flags (d : gmap string pyvalue) :
  in_marker_state d = false ->
  RuleElement.is_any d = false /\ RuleElement.is_none d = false.
Proof.
  unfold in_marker_state. intros H. apply orb_false_elim in H. tauto.
Qed.

Lemma insert_list_not_marker (f : field) (v : pyvalue)
      (d : gmap string pyvalue) :
  in_marker_state d = false ->
  in_marker_state (<[typeof f := v]> d) = false.
Proof.
  intros H. destruct (not_marker_flags d H) as [Ha Hn].
  unfold in_marker_state, RuleElement.is_any, RuleElement.is_none in *.
  rewrite !contains_insert_ne by (apply typeof_not_any || apply typeof_not_none).
  now rewrite Ha, Hn.
Qed.

Lemma all_as_href_of_list (f : field) (l : list string)
      (d : gmap string pyvalue) :
  in_marker_state d = false ->
  RuleElement.all_as_href f (<[typeof f := PList l]> d) = Ok (Some l).
Proof.
  intros H. pose proof (insert_list_not_marker f (PList l) d H) as H'.
  destruct (not_marker_flags _ H') as [Ha Hn].
  unfold RuleElement.all_as_href. rewrite Ha, Hn. cbn [negb andb].
  now rewrite get_insert.
Qed.

Lemma empty_not_marker : in_marker_state ∅ = false.
Proof. reflexivity. Qed.

(** X1.  On a field holding an explicit list, [add] of a resolvable item
    appends its locator at the end and keeps the items already there;
    [all_as_href] then returns the old list followed by the new locator. *)
Theorem add_appends (f : field) (x : item) (h : string) (l : list string)
        (d : gmap string pyvalue) :
  in_marker_state d = false ->
  d !! typeof f = Some (PList l) ->
  element_resolver x = Ok h ->
  RuleElement.add f x d = (Ok tt, <[typeof f := PList (l ++ [h])]> d)
  /\ RuleElement.all_as_href f (snd (RuleElement.add f x d))
     = Ok (Some (l ++ [h])).
Proof.
  intros Hm Hl Hx.
  assert (E : RuleElement.add f x d
              = (Ok tt, <[typeof f := PList (l ++ [h])]> d)).
  { unfold RuleElement.add. rewrite (start_list_plain f d Hm).
    unfold NestedDict.get. now rewrite Hl, Hx. }
  split; [exact E|]. rewrite E. cbn [snd]. now apply all_as_href_of_list.
Qed.

(** Adding [c] to the list [a], [b]. *)
Lemma add_appends_witness :
  RuleElement.all_as_href Source
    (snd (RuleElement.add Source (Locator "c") (<["src" := PList ["a"; "b"]]> ∅)))
  = Ok (Some ["a"; "b"; "c"]).
Proof.
  exact (proj2 (add_appends Source (Locator "c") "c" ["a"; "b"]
                  (<["src" := PList ["a"; "b"]]> ∅) eq_refl eq_refl eq_refl)).
Defined.

(** X2.  [add_many] of a list replaces the field's list, whatever the
    field held: [all_as_href] afterwards returns exactly the resolved
    items, the field is in no marker state, and the other keys are kept
    when the field was in no marker state and dropped when it was. *)
Theorem add_many_replaces (f : field) (l : list item)
        (d : gmap string pyvalue) :
  RuleElement.all_as_href f (snd (RuleElement.add_many f (Items l) d))
  = Ok (Some (element_resolver_list l))
  /\ in_marker_state (snd (RuleElement.add_many f (Items l) d)) = false
  /\ forall k, k <> typeof f ->
       snd (RuleElement.add_many f (Items l) d) !! k
       = if in_marker_state d then None else d !! k.
Proof.
  destruct (in_marker_state d) eqn:H.
  - rewrite (add_many_in_marker_state f l d H). cbn [snd].
    split; [apply all_as_href_of_list, empty_not_marker|].
    split; [apply insert_list_not_marker, empty_not_marker|].
    intros k Hk. rewrite lookup_insert_ne by congruence. apply lookup_empty.
  - unfold RuleElement.add_many. rewrite (start_list_plain f d H). cbn [snd].
    split; [now apply all_as_href_of_list|].
    split; [now apply insert_list_not_marker|].
    intros k Hk. now rewrite lookup_insert_ne by congruence.
Qed.

(** X3.  On a field in no marker state that holds no list under its key,
    [add] raises [AttributeError], whatever the item, and leaves the field
    as it was. *)
Theorem add_without_list (f : field) (x : item) (d : gmap string pyvalue) :
  in_marker_state d = false ->
  (forall l, d !! typeof f <> Some (PList l)) ->
  RuleElement.add f x d = (Raise AttributeError, d).
Proof.
  intros Hm Hl. unfold RuleElement.add. rewrite (start_list_plain f d Hm).
  unfold NestedDict.get. destruct (d !! typeof f) as [[]|] eqn:E;
    try reflexivity. exfalso. eapply Hl. reflexivity.
Qed.

(** The empty field. *)
Lemma add_without_list_witness :
  RuleElement.add Service (Locator "http://smc/elements/service/1") ∅
  = (Raise AttributeError, ∅).
Proof.
  apply (add_without_list Service (Locator "http://smc/elements/service/1") ∅).
  - reflexivity.
  - intros l. rewrite lookup_empty. discriminate.
Defined.

(** X4.  [all] follows [all_as_href]: where [all_as_href] returns a list,
    [all] returns the handles of the same locators in the same order; where
    it returns [None] (a marker state), [all] returns the empty list; and
    where it fails, in no marker state and with [TypeError], [all] fails
    with [TypeError] too. *)
Theorem all_follows_all_as_href (f : field) (d : gmap string pyvalue) :
  match RuleElement.all_as_href f d with
  | Ok (Some l) =>
      RuleElement.all f d = Ok (map (fun h => Element (Some h)) l)
  | Ok None => in_marker_state d = true /\ RuleElement.all f d = Ok []
  | Raise e =>
      in_marker_state d = false /\ e = TypeError
      /\ RuleElement.all f d = Raise TypeError
  end.
Proof.
  unfold RuleElement.all_as_href, RuleElement.all, in_marker_state.
  destruct (RuleElement.is_any d), (RuleElement.is_none d); cbn [negb andb orb];
    try (split; reflexivity).
  destruct (NestedDict.get (typeof f) d); cbn [RuleElement.iterate];
    try reflexivity; repeat split; reflexivity.
Qed.

(** ** Validated setters *)

Lemma existsb_eqb_In (s : string) (l : list string) :
  existsb (String.eqb s) l = true <-> In s l.
Proof.
  rewrite existsb_exists. split.
  - intros (y & Hy & E). apply String.eqb_eq in E. now subst.
  - intros H. exists s. split; [exact H | apply String.eqb_refl].
Qed.

Lemma set_validated_spec (key : string) (allowed : list string)
      (value : pyvalue) (d : gmap string pyvalue) :
  (one_of allowed value ->
   set_validated key allowed value d = <[key := value]> d
   /\ NestedDict.get key (set_validated key allowed value d) = value)
  /\ (~ one_of allowed value -> set_validated key allowed value d = d).
Proof.
  unfold set_validated, one_of. split.
  - intros (s & Hs & ->). apply existsb_eqb_In in Hs. rewrite Hs.
    split; [reflexivity|].
    unfold NestedDict.get, NestedDict.update. now rewrite lookup_insert_eq.
  - intros Hno. destruct value as [| | | |s|]; try reflexivity.
    destruct (existsb (String.eqb s) allowed) eqn:E; [|reflexivity].
    exfalso. apply Hno. exists s. split; [now apply existsb_eqb_In | reflexivity].
Qed.

(** X5.  The setters of [application_logging], [user_logging] and
    [scan_detection] store their argument exactly when it is one of
    their three allowed strings: the options then are the former ones
    with the argument under the setter's own key, and the getter reads
    the argument back.  Any other argument, a string outside the three
    or a value that is no string, is ignored and the options stay
    exactly as they were. *)
Theorem validated_setters (value : pyvalue) (d : gmap string pyvalue) :
  ((one_of ["off"; "default"; "enforced"] value ->
    LogOptions.set_application_logging value d
    = <["application_logging" := value]> d
    /\ LogOptions.application_logging
         (LogOptions.set_application_logging value d) = value)
   /\ (~ one_of ["off"; "default"; "enforced"] value ->
       LogOptions.set_application_logging value d = d))
  /\ ((one_of ["off"; "default"; "enforced"] value ->
       LogOptions.set_user_logging value d = <["user_logging" := value]> d
       /\ LogOptions.user_logging (LogOptions.set_user_logging value d)
          = value)
      /\ (~ one_of ["off"; "default"; "enforced"] value ->
          LogOptions.set_user_logging value d = d))
  /\ ((one_of ["on"; "off"; "undefined"] value ->
       Action.set_scan_detection value d = <["scan_detection" := value]> d
       /\ Action.scan_detection (Action.set_scan_detection value d) = value)
      /\ (~ one_of ["on"; "off"; "undefined"] value ->
          Action.set_scan_detection value d = d)).
Proof.
  split; [|split].
  - exact (set_validated_spec "application_logging" LogOptions.logging_modes
             value d).
  - exact (set_validated_spec "user_logging" LogOptions.logging_modes
             value d).
  - exact (set_validated_spec "scan_detection" Action.scan_modes value d).
Qed.

(** [enforced] is stored and read back; [verbose] and [True] are
    ignored. *)
Lemma validated_setters_witness :
  LogOptions.application_logging
    (LogOptions.set_application_logging (PStr "enforced") LogOptions.__init__)
  = PStr "enforced"
  /\ LogOptions.set_application_logging (PStr "verbose") LogOptions.__init__
     = LogOptions.__init__
  /\ Action.set_scan_detection (PBool true) ∅ = ∅.
Proof.
  split; [|split].
  - apply (validated_setters (PStr "enforced") LogOptions.__init__).
    exists "enforced". split; [right; right; left; reflexivity | reflexivity].
  - apply (validated_setters (PStr "verbose") LogOptions.__init__).
    intros (s & Hs & E). injection E as <-.
    repeat destruct Hs as [Hs|Hs]; discriminate || exact Hs.
  - apply (validated_setters (PBool true) ∅).
    intros (s & _ & E). discriminate E.
Defined.

(** ** The log level setter *)

Lemma truthy_accounting_kept (d : gmap string pyvalue) :
  truthy (LogOptions.log_accounting_info_mode d) = true ->
  (if negb (truthy (LogOptions.log_accounting_info_mode d))
   then LogOptions.set_log_accounting_info_mode (PBool true) d
   else d) = d.
Proof. now intros ->. Qed.

Lemma accounting_of_level (value : pyvalue) (d : gmap string pyvalue) :
  LogOptions.log_accounting_info_mode
    (if LogOptions.allowed_level value
     then NestedDict.update "log_level" value d else d)
  = LogOptions.log_accounting_info_mode d.
Proof.
  destruct (LogOptions.allowed_level value); [|reflexivity].
  unfold LogOptions.log_accounting_info_mode, NestedDict.get, NestedDict.update.
  now rewrite lookup_insert_ne by discriminate.
Qed.

Lemma set_log_level_truthy (value : pyvalue) (d : gmap string pyvalue) :
  truthy (LogOptions.log_accounting_info_mode
            (LogOptions.set_log_level value d)) = true.
Proof.
  unfold LogOptions.set_log_level.
  destruct (truthy (LogOptions.log_accounting_info_mode
                      (if LogOptions.allowed_level value
                       then NestedDict.update "log_level" value d else d)))
    eqn:E; cbn [negb].
  - exact E.
  - unfold LogOptions.log_accounting_info_mode,
      LogOptions.set_log_accounting_info_mode, NestedDict.get, NestedDict.update.
    now rewrite lookup_insert_eq.
Qed.

(** X6.  The [log_level] setter is idempotent: setting the same value a
    second time changes nothing. *)
Theorem set_log_level_idempotent (value : pyvalue)
        (d : gmap string pyvalue) :
  LogOptions.set_log_level value (LogOptions.set_log_level value d)
  = LogOptions.set_log_level value d.
Proof.
  pose proof (set_log_level_truthy value d) as Ht.
  set (d2 := LogOptions.set_log_level value d) in *.
  assert (E : (if LogOptions.allowed_level value
               then NestedDict.update "log_level" value d2 else d2) = d2).
  { destruct (LogOptions.allowed_level value) eqn:Ha; [|reflexivity].
    subst d2. unfold LogOptions.set_log_level. rewrite Ha.
    unfold NestedDict.update, LogOptions.set_log_accounting_info_mode.
    destruct (negb _).
    - unfold NestedDict.update.
      rewrite (insert_insert_ne _ "log_level" "log_accounting_info_mode")
        by discriminate.
      now rewrite insert_insert_eq.
    - now rewrite insert_insert_eq. }
  unfold LogOptions.set_log_level at 1. rewrite E.
  now apply truthy_accounting_kept.
Qed.

(** X7.  The [log_level] setter touches no key other than [log_level] and
    [log_accounting_info_mode]; it leaves a truthy
    [log_accounting_info_mode] as it is (also when it is not a boolean),
    and turns a falsy or missing one into [True]. *)
Theorem set_log_level_frame (value : pyvalue) (d : gmap string pyvalue) :
  (forall k, k <> "log_level" -> k <> "log_accounting_info_mode" ->
             LogOptions.set_log_level value d !! k = d !! k)
  /\ (truthy (LogOptions.log_accounting_info_mode d) = true ->
      LogOptions.log_accounting_info_mode (LogOptions.set_log_level value d)
      = LogOptions.log_accounting_info_mode d)
  /\ (truthy (LogOptions.log_accounting_info_mode d) = false ->
      LogOptions.log_accounting_info_mode (LogOptions.set_log_level value d)
      = PBool true).
Proof.
  unfold LogOptions.set_log_level.
  pose proof (accounting_of_level value d) as Ea.
  split; [|split].
  - intros k Hl Ha.
    unfold LogOptions.set_log_accounting_info_mode, NestedDict.update.
    destruct (negb _), (LogOptions.allowed_level value);
      rewrite ?lookup_insert_ne by congruence; reflexivity.
  - intros Ht. rewrite Ea, Ht. cbn [negb]. exact Ea.
  - intros Hf. rewrite Ea, Hf. cbn [negb].
    unfold LogOptions.log_accounting_info_mode,
      LogOptions.set_log_accounting_info_mode, NestedDict.get, NestedDict.update.
    now rewrite lookup_insert_eq.
Qed.

(** An accounting mode of 1 stays 1. *)
Lemma set_log_level_frame_witness :
  LogOptions.log_accounting_info_mode
    (LogOptions.set_log_level (PStr "alert")
       (<["log_accounting_info_mode" := PInt 1]> ∅))
  = PInt 1.
Proof.
  exact (proj1 (proj2 (set_log_level_frame (PStr "alert")
                         (<["log_accounting_info_mode" := PInt 1]> ∅)))
               eq_refl).
Defined.

(** ** Connection tracking *)

(** X8.  The [mss_enforced_min_max] setter given a pair stores it so that
    the getter returns the same pair, and changes no other key; given a
    tuple of another length it raises [ValueError], and given anything
    that is no tuple it does nothing; in both cases the options are left
    as they were. *)
Theorem mss_min_max_round_trip (value : mss_arg) (d : gmap string pyvalue) :
  match value with
  | MssTuple [minimum; maximum] =>
      fst (ConnectionTracking.set_mss_enforced_min_max value d) = Ok tt
      /\ ConnectionTracking.mss_enforced_min_max
           (snd (ConnectionTracking.set_mss_enforced_min_max value d))
         = (minimum, maximum)
      /\ forall k, k <> "mss_enforced_min" -> k <> "mss_enforced_max" ->
           snd (ConnectionTracking.set_mss_enforced_min_max value d) !! k
           = d !! k
  | MssTuple _ =>
      ConnectionTracking.set_mss_enforced_min_max value d
      = (Raise ValueError, d)
  | MssOther _ =>
      ConnectionTracking.set_mss_enforced_min_max value d = (Ok tt, d)
  end.
Proof.
  destruct value as [[|a [|b [|c l]]]|v]; try reflexivity.
  cbn [ConnectionTracking.set_mss_enforced_min_max fst snd].
  unfold ConnectionTracking.mss_enforced_min_max, NestedDict.get,
    NestedDict.update.
  split; [reflexivity|]. split.
  - rewrite lookup_insert_ne by discriminate.
    now rewrite !lookup_insert_eq.
  - intros k Hmin Hmax. now rewrite !lookup_insert_ne by congruence.
Qed.

(** ** More on the link directory *)

Lemma last_filter_In {A} (p : A -> bool) (l : list A) (x : A) :
  last (List.filter p l) = Some x -> In x l /\ p x = true.
Proof.
  intros H. assert (Hin : In x (List.filter p l)).
  { apply list_elem_of_In, last_Some_elem_of, H. }
  now apply filter_In in Hin.
Qed.

(** X9.  Whatever [get_entry_href] returns is a non-empty address, the
    address of the last entry of the directory that carries the
    relation. *)
Theorem get_entry_href_sound (c : SessionCache) (verb h : string) :
  SessionCache.get_entry_href c verb = Ok h ->
  h <> ""
  /\ exists es e, api_entry c = Some es /\ In e es
                  /\ rel e = Some verb /\ href e = Some h
                  /\ last_with_rel verb es = Some e.
Proof.
  unfold SessionCache.get_entry_href.
  destruct (api_entry c) as [[|e0 es]|] eqn:Hes; try discriminate.
  rewrite scan_entries_last.
  destruct (last_with_rel verb (e0 :: es)) as [e|] eqn:Hlast; [|discriminate].
  destruct (href e) as [h'|] eqn:Hh; [|discriminate].
  destruct (String.eqb_spec h' ""); [discriminate|].
  intros [= ->]. split; [assumption|].
  exists (e0 :: es), e. destruct (last_filter_In _ _ _ Hlast) as [Hin Hrel].
  repeat split; auto.
  unfold has_rel in Hrel. destruct (rel e) as [r|]; [|discriminate].
  apply String.eqb_eq in Hrel. now subst.
Qed.

(** [login] in [directory_0]. *)
Lemma get_entry_href_sound_witness :
  "http://smc/6.5/login" <> ""
  /\ exists es e, api_entry (mkCache (Some directory_0) PNone) = Some es
                  /\ In e es
                  /\ rel e = Some "login"
                  /\ href e = Some "http://smc/6.5/login"
                  /\ last_with_rel "login" es = Some e.
Proof.
  exact (get_entry_href_sound (mkCache (Some directory_0) PNone) "login"
           "http://smc/6.5/login" eq_refl).
Defined.

(** X10.  When the last entry carrying the relation has no address, or an
    empty one, [get_entry_href] fails with [UnsupportedEntryPoint] even if
    earlier entries carry the relation with a usable address. *)
Theorem get_entry_href_hidden (c : SessionCache) (verb : string)
        (es : list entry) (e : entry) :
  api_entry c = Some es ->
  last_with_rel verb es = Some e ->
  href e = None \/ href e = Some "" ->
  SessionCache.get_entry_href c verb
  = Raise (UnsupportedEntryPoint
             (SessionCache.unsupported_message verb (api_version c))).
Proof.
  intros Hes Hlast Hh.
  assert (Hne : es <> []) by (intros ->; discriminate).
  rewrite (get_entry_href_nonempty c verb es Hes Hne), scan_entries_last, Hlast.
  destruct Hh as [->| ->]; reflexivity.
Qed.

(** A second [login] entry without address hides the first. *)
Lemma get_entry_href_hidden_witness :
  SessionCache.get_entry_href (mkCache (Some directory_4) (PStr "6.5")) "login"
  = Raise (UnsupportedEntryPoint
             (SessionCache.unsupported_message "login" (PStr "6.5"))).
Proof.
  exact (get_entry_href_hidden (mkCache (Some directory_4) (PStr "6.5"))
           "login" directory_4 (Entry (Some "login") None)
           eq_refl eq_refl (or_introl eq_refl)).
Defined.

(** ** More on the filter scan *)

Lemma collect_filters_missing_href (address : string) (es : list entry) :
  plain_address address = true ->
  Exists (fun e => href e = None) es ->
  SessionCache.collect_filters address es = Raise TypeError.
Proof.
  intros Hplain. unfold plain_address in Hplain.
  destruct (plain_compiles _ Hplain) as (p & Hp & _ & _).
  induction es as [|e es IH]; intros H.
  - inversion H.
  - cbn [SessionCache.collect_filters].
    destruct (href e) as [h|] eqn:Hh; [|reflexivity].
    unfold finditer_group1 at 1. rewrite Hp.
    rewrite IH; [reflexivity|].
    inversion H as [? ? He|? ? Hes]; subst; [congruence | exact Hes].
Qed.

(** X11.  When [elements] resolves to an address without regular
    expression operators and some entry of the directory has no address,
    [get_element_filters] raises [TypeError]. *)
Theorem get_element_filters_missing_href (c : SessionCache)
        (es : list entry) (address : string) :
  api_entry c = Some es ->
  SessionCache.get_entry_href c "elements" = Ok address ->
  plain_address address = true ->
  Exists (fun e => href e = None) es ->
  SessionCache.get_element_filters c = Raise TypeError.
Proof.
  intros Hes Ha Hplain Hex. unfold SessionCache.get_element_filters.
  rewrite Ha, Hes. now apply collect_filters_missing_href.
Qed.

(** The third entry of [directory_5] has no address. *)
Lemma get_element_filters_missing_href_witness :
  SessionCache.get_element_filters (mkCache (Some directory_5) PNone)
  = Raise TypeError.
Proof.
  apply (get_element_filters_missing_href (mkCache (Some directory_5) PNone)
           directory_5 "elements").
  - reflexivity.
  - reflexivity.
  - reflexivity.
  - right. right. left. reflexivity.
Defined.

Lemma match_here_length (p : list atom) (s rest : list ascii) :
  match_here p s = Some rest -> length s = (length p + length rest)%nat.
Proof.
  revert s. induction p as [|a p IH]; intros s; cbn [match_here].
  - now intros [= ->].
  - destruct s as [|c s]; [discriminate|].
    destruct (atom_matches a c); [|discriminate].
    intros H. cbn [length]. now rewrite (IH _ H).
Qed.

Lemma scan_short (p : list atom) (s : list ascii) (k : nat) :
  (length s < length p)%nat -> scan p s k = [].
Proof.
  revert k. induction s as [|c s IH]; intros k Hlen; [reflexivity|].
  cbn [scan]. destruct k as [|k].
  - destruct (match_here p (c :: s)) as [rest|] eqn:Hm.
    + apply match_here_length in Hm. lia.
    + apply IH. simpl in Hlen. lia.
  - apply IH. simpl in Hlen. lia.
Qed.

Lemma short_address_no_match (address h : string) :
  plain_address address = true ->
  (String.length h <= String.length address)%nat ->
  finditer_group1 address h = Some [].
Proof.
  intros Hplain Hlen. unfold plain_address in Hplain.
  destruct (plain_compiles _ Hplain) as (p & Hp & Hpl & _).
  rewrite <- !length_list_ascii in Hlen.
  unfold finditer_group1. rewrite Hp. f_equal. apply scan_short. lia.
Qed.

Lemma collect_filters_skip (address : string) (es1 es2 : list entry)
      (e : entry) (h : string) :
  href e = Some h -> finditer_group1 address h = Some [] ->
  SessionCache.collect_filters address (es1 ++ e :: es2)
  = SessionCache.collect_filters address (es1 ++ es2).
Proof.
  intros He Hm. induction es1 as [|x es1 IH].
  - cbn [app SessionCache.collect_filters]. rewrite He, Hm.
    destruct (SessionCache.collect_filters address es2); reflexivity.
  - cbn [app SessionCache.collect_filters]. now rewrite IH.
Qed.

(** X12.  When the address of [elements] holds no regular expression
    operator other than the dot, an entry whose address is not longer
    than the address of [elements] adds nothing to
    [get_element_filters]: the call returns, or raises, what the
    comprehension gives over the directory without that entry. *)
Theorem short_address_no_filter (c : SessionCache) (es1 es2 : list entry)
        (e : entry) (address h : string) :
  api_entry c = Some (es1 ++ e :: es2) ->
  SessionCache.get_entry_href c "elements" = Ok address ->
  plain_address address = true ->
  href e = Some h ->
  (String.length h <= String.length address)%nat ->
  SessionCache.get_element_filters c
  = SessionCache.collect_filters address (es1 ++ es2).
Proof.
  intros Hes Ha Hplain He Hlen.
  unfold SessionCache.get_element_filters. rewrite Ha, Hes.
  apply (collect_filters_skip address es1 es2 e h He).
  now apply short_address_no_match.
Qed.

(** The entry of [elements] itself is no filter: only [host] is
    listed. *)
Lemma short_address_no_filter_witness :
  SessionCache.get_element_filters (mkCache (Some directory_6) PNone)
  = SessionCache.collect_filters "http://smc:8082/6.5/elements"
      [Entry (Some "host") (Some "http://smc:8082/6.5/elements/host")]
  /\ SessionCache.get_element_filters (mkCache (Some directory_6) PNone)
     = Ok ["host"].
Proof.
  split; [|reflexivity].
  apply (short_address_no_filter (mkCache (Some directory_6) PNone) []
           [Entry (Some "host") (Some "http://smc:8082/6.5/elements/host")]
           (Entry (Some "elements") (Some "http://smc:8082/6.5/elements"))
           "http://smc:8082/6.5/elements" "http://smc:8082/6.5/elements").
  - reflexivity.
  - reflexivity.
  - reflexivity.
  - reflexivity.
  - apply Nat.le_refl.
Defined.

(** ** Entry-point discovery *)

Ltac run_cache :=
  unfold SessionCache.get_api_entry, wrap_request_exception, bind, logger,
    send, world_send, world_log, set_self, ret, raise, world_after,
    entry_query, version_note, retrieved_note;
  cbn [pending sent logged config_file handles].

(** X13.  [get_api_entry] with a version given sends one request, the
    entry-point query for that version; answered with status 200 and a
    JSON body with entry points, it replaces the cached directory and
    version by the new ones, whatever the cache held. *)
Theorem get_api_entry_replaces (c : SessionCache) (w : World) (url : string)
        (v : pyvalue) (t : Z) (r : response) (j : json_doc)
        (es : list entry) (rest : list outcome) :
  v <> PNone ->
  pending w = Reply r :: rest ->
  status_code r = 200 -> text r = Json j -> j_entry_point j = Some es ->
  SessionCache.get_api_entry url v t (c, w)
  = (Ok tt,
     (mkCache (Some es) v,
      world_after (entry_query url v t) rest
                  [retrieved_note; version_note v] w)).
Proof.
  intros Hv Hp Hs Ht He.
  destruct v; try congruence; run_cache; rewrite Hp, Hs, Ht;
    cbn [Z.eqb Pos.eqb SessionCache.json_loads ret bind];
    unfold bind, set_self, ret, SessionCache.of_key; rewrite He; reflexivity.
Qed.

(** The directory of [directory_0] under 6.1 gives way to the new one. *)
Lemma get_api_entry_replaces_witness :
  fst (snd (SessionCache.get_api_entry "http://smc:8082" (PStr "6.5") 10
              (mkCache (Some directory_0) (PStr "6.1"), world_1)))
  = mkCache (Some directory_3) (PStr "6.5").
Proof.
  exact (f_equal (fun x => fst (snd x))
           (get_api_entry_replaces
              (mkCache (Some directory_0) (PStr "6.1")) world_1
              "http://smc:8082" (PStr "6.5") 10
              (Response 200 (Json (JsonDoc None (Some directory_3))))
              (JsonDoc None (Some directory_3)) directory_3
              [Reply (Response 200 NotJson); entry_points_reply;
               Reply (Response 200 NotJson)]
              ltac:(discriminate) eq_refl eq_refl eq_refl eq_refl)).
Defined.

(** X14.  [get_api_entry] with a version given fails with
    [SMCConnectionError] and leaves the cache as it was when the
    entry-point query is answered with a status other than 200 (the
    message carries the response text) and when the server cannot be
    reached. *)
Theorem get_api_entry_refused (c : SessionCache) (w : World) (url : string)
        (v : pyvalue) (t : Z) :
  v <> PNone ->
  (forall r rest,
      pending w = Reply r :: rest -> status_code r <> 200 ->
      SessionCache.get_api_entry url v t (c, w)
      = (Raise (SMCConnectionError
                  [Lit "Error occurred during initial api request, json was not returned. Return data was: ";
                   TextOf (text r)]),
         (c, world_after (entry_query url v t) rest [version_note v] w)))
  /\ (forall rest,
         pending w = [] \/ pending w = Unreachable :: rest ->
         fst (SessionCache.get_api_entry url v t (c, w))
         = Raise (SMCConnectionError [Lit "RequestException"])
         /\ fst (snd (SessionCache.get_api_entry url v t (c, w))) = c).
Proof.
  intros Hv. split.
  - intros r rest Hp Hs. apply Z.eqb_neq in Hs.
    destruct v; try congruence; run_cache; rewrite Hp, Hs; reflexivity.
  - intros rest [Hp|Hp];
      destruct v; try congruence; run_cache; rewrite Hp; split; reflexivity.
Qed.

(** Nothing answers: the cached directory and version stay. *)
Lemma get_api_entry_refused_witness :
  fst (SessionCache.get_api_entry "http://smc:8082" (PStr "6.5") 10
         (mkCache (Some directory_3) (PStr "6.1"), mkWorld [] [] [] None 0))
  = Raise (SMCConnectionError [Lit "RequestException"])
  /\ fst (snd (SessionCache.get_api_entry "http://smc:8082" (PStr "6.5") 10
                 (mkCache (Some directory_3) (PStr "6.1"),
                  mkWorld [] [] [] None 0)))
     = mkCache (Some directory_3) (PStr "6.1").
Proof.
  exact (proj2 (get_api_entry_refused (mkCache (Some directory_3) (PStr "6.1"))
                  (mkWorld [] [] [] None 0) "http://smc:8082" (PStr "6.5") 10
                  ltac:(discriminate))
               [] (or_introl eq_refl)).
Defined.

(** X15.  When the entry-point query is answered with status 200 and a
    JSON body without [entry_point], [get_api_entry] raises [KeyError]
    after it has stored the version: the cache keeps its old directory
    with the new version. *)
Theorem get_api_entry_half_update (c : SessionCache) (w : World)
        (url : string) (v : pyvalue) (t : Z) (r : response) (j : json_doc)
        (rest : list outcome) :
  v <> PNone ->
  pending w = Reply r :: rest ->
  status_code r = 200 -> text r = Json j -> j_entry_point j = None ->
  SessionCache.get_api_entry url v t (c, w)
  = (Raise KeyError,
     (mkCache (api_entry c) v,
      world_after (entry_query url v t) rest
                  [retrieved_note; version_note v] w)).
Proof.
  intros Hv Hp Hs Ht He.
  destruct v; try congruence; run_cache; rewrite Hp, Hs, Ht;
    cbn [Z.eqb Pos.eqb SessionCache.json_loads ret bind];
    unfold bind, set_self, ret, SessionCache.of_key; rewrite He; reflexivity.
Qed.

(** The directory of version 6.1 is kept under version 6.5. *)
Lemma get_api_entry_half_update_witness :
  fst (snd (SessionCache.get_api_entry "http://smc:8082" (PStr "6.5") 10
              (mkCache (Some directory_3) (PStr "6.1"),
               mkWorld [Reply (Response 200 (Json (JsonDoc None None)))]
                       [] [] None 0)))
  = mkCache (Some directory_3) (PStr "6.5").
Proof.
  exact (f_equal (fun x => fst (snd x))
           (get_api_entry_half_update
              (mkCache (Some directory_3) (PStr "6.1"))
              (mkWorld [Reply (Response 200 (Json (JsonDoc None None)))]
                       [] [] None 0)
              "http://smc:8082" (PStr "6.5") 10
              (Response 200 (Json (JsonDoc None None))) (JsonDoc None None) []
              ltac:(discriminate) eq_refl eq_refl eq_refl eq_refl)).
Defined.

(** X16.  [get_api_entry] never lets a [RequestException] out: a failure
    of the transport is raised as [SMCConnectionError]. *)
Theorem get_api_entry_never_request_exception (c : SessionCache) (w : World)
        (url : string) (v : pyvalue) (t : Z) :
  raises_request_exception
    (fst (SessionCache.get_api_entry url v t (c, w))) = false.
Proof.
  unfold SessionCache.get_api_entry, wrap_request_exception.
  match goal with
  | |- context [match ?x with _ => _ end] => destruct x as [[a|e] st]
  end.
  - reflexivity.
  - destruct e; reflexivity.
Qed.

(** X17.  When the version document lists no version, [get_api_entry]
    without a version raises [ValueError] ([max] of an empty list) after
    this one request, and leaves the cache as it was. *)
Theorem discover_version_empty (c : SessionCache) (w : World) (url : string)
        (t : Z) (r : response) (j : json_doc) (rest : list outcome) :
  pending w = Reply r :: rest ->
  text r = Json j -> j_version j = Some [] ->
  SessionCache.get_api_entry url PNone t (c, w)
  = (Raise ValueError,
     (c, world_after (GET [Lit url; Lit "/api"] t) rest [] w)).
Proof.
  intros Hp Ht Hv. run_cache.
  unfold SessionCache.discover_version, bind, send, world_send.
  rewrite Hp, Ht. cbn [SessionCache.json_loads ret]. rewrite Hv. reflexivity.
Qed.

(** A version document with an empty list. *)
Lemma discover_version_empty_witness :
  fst (SessionCache.get_api_entry "http://smc:8082" PNone 10
         (SessionCache.__init__,
          mkWorld [Reply (Response 200 (Json (JsonDoc (Some []) None)))]
                  [] [] None 0))
  = Raise ValueError.
Proof.
  exact (f_equal fst
           (discover_version_empty SessionCache.__init__
              (mkWorld [Reply (Response 200 (Json (JsonDoc (Some []) None)))]
                       [] [] None 0)
              "http://smc:8082" 10
              (Response 200 (Json (JsonDoc (Some []) None)))
              (JsonDoc (Some []) None) [] eq_refl eq_refl eq_refl)).
Defined.

(** ** What discovery leaves alone in the world *)

Section WorldKeeps.

Context {X : Type}.
Variable Q : World -> Prop.
Hypothesis Q_log : forall w l m, Q w -> Q (world_log l m w).
Hypothesis Q_get : forall w url t, Q w -> Q (snd (world_send (GET url t) w)).

Lemma wkeeps_bind {A B} (c : M (X * World) A) (k : A -> M (X * World) B) :
wkeeps Q c -> (forall a, wkeeps Q (k a)) -> wkeeps Q (bind c k).
Proof.
intros Hc Hk st H. unfold bind. specialize (Hc st H).
destruct (c st) as [[a|e] st']; simpl in *; [now apply Hk | exact Hc].
Qed.

Lemma wkeeps_ret {A} (a : A) : wkeeps Q (@ret (X * World) A a).
Proof. intros st H; exact H. Qed.

Lemma wkeeps_raise {A} (e : exn) : wkeeps Q (@raise (X * World) A e).
Proof. intros st H; exact H. Qed.

Lemma wkeeps_set_self (f : X -> X) : wkeeps Q (set_self f).
Proof. intros [x w] H; exact H. Qed.

Lemma wkeeps_logger (l : level) (m : message) : wkeeps Q (@logger X l m).
Proof. intros [x w] H. now apply Q_log. Qed.

Lemma wkeeps_get (url : message) (t : Z) : wkeeps Q (@send X (GET url t)).
Proof.
intros [x w] H. unfold send. specialize (Q_get w url t H).
destruct (world_send (GET url t) w) as [r w']. exact Q_get.
Qed.

Lemma wkeeps_wrap {A} (c : M (X * World) A) :
wkeeps Q c -> wkeeps Q (wrap_request_exception c).
Proof.
intros Hc st H. unfold wrap_request_exception. specialize (Hc st H).
destruct (c st) as [[a|[]] st']; exact Hc.
Qed.

End WorldKeeps.

Section DiscoveryKeeps.

Variable Q : World -> Prop.
Hypothesis Q_log : forall w l m, Q w -> Q (world_log l m w).
Hypothesis Q_get : forall w url t, Q w -> Q (snd (world_send (GET url t) w)).

Lemma wkeeps_of_result {A} (r : result A) :
wkeeps Q (SessionCache.of_result r).
Proof. destruct r; [apply wkeeps_ret | apply wkeeps_raise]. Qed.

Lemma wkeeps_of_key {A} (o : option A) : wkeeps Q (SessionCache.of_key o).
Proof. destruct o; [apply wkeeps_ret | apply wkeeps_raise]. Qed.

Lemma wkeeps_json_loads (b : body) : wkeeps Q (SessionCache.json_loads b).
Proof. destruct b; [apply wkeeps_raise | apply wkeeps_ret]. Qed.

Lemma wkeeps_discover_version (url : string) (t : Z) :
wkeeps Q (SessionCache.discover_version url t).
Proof.
unfold SessionCache.discover_version.
repeat first
  [ apply wkeeps_ret | apply wkeeps_of_result | apply wkeeps_of_key
  | apply wkeeps_json_loads | apply wkeeps_get; assumption
  | apply wkeeps_bind; [| intros ?] ].
Qed.

Lemma wkeeps_get_api_entry (url : string) (v : pyvalue) (t : Z) :
wkeeps Q (SessionCache.get_api_entry url v t).
Proof.
unfold SessionCache.get_api_entry. apply wkeeps_wrap.
apply wkeeps_bind.
{ destruct v; first [apply wkeeps_discover_version | apply wkeeps_ret]. }
intros v'. apply wkeeps_bind; [apply wkeeps_logger; assumption | intros _].
apply wkeeps_bind; [apply wkeeps_get; assumption | intros r].
apply wkeeps_bind; [| intros j].
- destruct (status_code r =? 200); [|apply wkeeps_raise].
  apply wkeeps_bind; [apply wkeeps_json_loads | intros j].
  apply wkeeps_bind; [apply wkeeps_set_self | intros _].
  apply wkeeps_bind; [apply wkeeps_logger; assumption | intros _].
  apply wkeeps_ret.
- apply wkeeps_bind; [apply wkeeps_of_key | intros es].
  apply wkeeps_set_self.
Qed.

End DiscoveryKeeps.

Lemma get_api_entry_keeps_handles (url : string) (v : pyvalue) (t : Z)
      (c : SessionCache) (w : World) :
  handles (snd (snd (SessionCache.get_api_entry url v t (c, w)))) = handles w.
Proof.
  apply (wkeeps_get_api_entry (fun w' => handles w' = handles w)); auto.
  intros w0 u t0 H. unfold world_send.
  destruct (pending w0) as [|[r|] rest]; exact H.
Qed.

(** ** Login step by step *)

Lemma login_with_session (u k : string) (v : pyvalue) (t : option Z)
      (s : Session) (w : World) :
  Session.login_with u k v t (s, w)
  = Session.login_session v (with_credentials u k t s, w).
Proof.
  unfold Session.login_with, with_credentials, bind, set_self.
  destruct t as [t|]; [destruct (t =? 0)|]; reflexivity.
Qed.

Lemma login_given (u k : string) (v : pyvalue) (t : option Z)
      (st : Session * World) :
  u <> "" -> k <> "" ->
  Session.login (Some u) (Some k) v t st = Session.login_with u k v t st.
Proof.
  intros Hu Hk. unfold Session.login, Session.nonempty.
  destruct (String.eqb_spec u ""); [contradiction|].
  destruct (String.eqb_spec k ""); [contradiction|]. reflexivity.
Qed.

(** [login_session] as a function of what discovery, the directory and
    the transport answer. *)
Lemma login_session_run (v : pyvalue) (s : Session) (w : World)
      (url key : string) :
  _url s = Some url -> _api_key s = Some key ->
  Session.login_session v (s, w)
  = let '(r1, (c1, w1)) :=
      SessionCache.get_api_entry url v (_timeout s) (Session.cache s, w) in
    let s1 := Session.set_cache c1 s in
    match r1 with
    | Raise e => (Raise e, (s1, w1))
    | Ok _ =>
        let '(h, w2) := world_new_handle w1 in
        match SessionCache.get_entry_href c1 "login" with
        | Raise e => (Raise e, (s1, w2))
        | Ok address =>
            let '(r3, w3) := world_send (POST address key) w2 in
            match r3 with
            | Raise e => (Raise e, (s1, w3))
            | Ok r =>
                if status_code r =? 200 then
                  (Ok tt,
                   (Session.set_connection h (Session.set_session h s1),
                    world_log DEBUG
                      [Lit "Login succeeded and session retrieved: ";
                       StrOf (PInt (Z.of_nat h))] w3))
                else
                  (Raise (SMCConnectionError (login_failed_note r)), (s1, w3))
            end
        end
    end.
Proof.
  intros Hu Hk. unfold Session.login_session.
  unfold bind at 1. cbn [self]. rewrite Hu.
  unfold bind at 1. cbn [Session.of_attr ret].
  unfold bind at 1. unfold Session.on_cache at 1.
  destruct (SessionCache.get_api_entry url v (_timeout s) (Session.cache s, w))
    as [[[]|e] [c1 w1]]; [|reflexivity].
  unfold bind at 1. unfold requests_session at 1.
  destruct (world_new_handle w1) as [h w2] eqn:Hh.
  unfold bind at 1. rewrite on_cache_read. cbn [Session.cache Session.set_cache _cache].
  destruct (SessionCache.get_entry_href c1 "login") as [address|e]; [|reflexivity].
  unfold bind at 1. cbn [self]. unfold bind at 1.
  cbn [Session.set_cache _api_key]. rewrite Hk. cbn [Session.of_attr ret].
  unfold bind at 1. unfold send at 1.
  destruct (world_send (POST address key) w2) as [[r|e] w3]; [|reflexivity].
  unfold login_failed_note.
  destruct (status_code r =? 200); reflexivity.
Qed.

(** ** Outcomes of login *)

Lemma with_credentials_fields (u k : string) (t : option Z) (s : Session) :
  _url (with_credentials u k t s) = Some u
  /\ _api_key (with_credentials u k t s) = Some k
  /\ _session (with_credentials u k t s) = _session s
  /\ _connection (with_credentials u k t s) = _connection s
  /\ Session.cache (with_credentials u k t s) = Session.cache s
  /\ http_401 (with_credentials u k t s) = http_401 s.
Proof.
  unfold with_credentials.
  destruct t as [t|]; [destruct (t =? 0)|]; repeat split; reflexivity.
Qed.

Lemma login_run (u k : string) (v : pyvalue) (t : option Z) (s : Session)
      (w : World) :
  u <> "" -> k <> "" ->
  Session.login (Some u) (Some k) v t (s, w)
  = Session.login_session v (with_credentials u k t s, w).
Proof.
  intros Hu Hk. now rewrite login_given, login_with_session.
Qed.

(** X18.  A [login] with address and credential that raises leaves
    [_session] and [_connection] as they were: a failed login does not
    unbind a session established before. *)
Theorem login_failure_keeps_session (u k : string) (v : pyvalue)
        (t : option Z) (s : Session) (w : World) (e : exn) :
  u <> "" -> k <> "" ->
  fst (Session.login (Some u) (Some k) v t (s, w)) = Raise e ->
  _session (fst (snd (Session.login (Some u) (Some k) v t (s, w))))
  = _session s
  /\ _connection (fst (snd (Session.login (Some u) (Some k) v t (s, w))))
     = _connection s.
Proof.
  intros Hu Hk. rewrite (login_run u k v t s w Hu Hk).
  destruct (with_credentials_fields u k t s) as (Eu & Ek & Es & Ec & _).
  rewrite (login_session_run v _ w u k Eu Ek).
  destruct (SessionCache.get_api_entry _ _ _ _) as [[[]|e1] [c1 w1]];
    cbn [fst snd]; [|intros _; split; assumption].
  destruct (world_new_handle w1) as [h w2].
  destruct (SessionCache.get_entry_href c1 "login") as [address|e2];
    cbn [fst snd]; [|intros _; split; assumption].
  destruct (world_send (POST address k) w2) as [[r|e3] w3];
    cbn [fst snd]; [|intros _; split; assumption].
  destruct (status_code r =? 200); cbn [fst snd];
    [discriminate | intros _; split; assumption].
Qed.

(** X19.  A [login] with address and credential that returns has bound
    [_session] and [_connection] to one new transport handle, has stored
    the address and the credential, has left the failure counter alone,
    and the last request it sent is the [POST] of the credential to the
    address [login] resolves to in the new directory. *)
Theorem login_success_binds (u k : string) (v : pyvalue) (t : option Z)
        (s : Session) (w : World) :
  u <> "" -> k <> "" ->
  fst (Session.login (Some u) (Some k) v t (s, w)) = Ok tt ->
  let s' := fst (snd (Session.login (Some u) (Some k) v t (s, w))) in
  let w' := snd (snd (Session.login (Some u) (Some k) v t (s, w))) in
  _session s' = Some (handles w)
  /\ _connection s' = Some (handles w)
  /\ handles w' = S (handles w)
  /\ _url s' = Some u /\ _api_key s' = Some k
  /\ http_401 s' = http_401 s
  /\ exists address older,
       SessionCache.get_entry_href (Session.cache s') "login" = Ok address
       /\ sent w' = POST address k :: older.
Proof.
  intros Hu Hk. rewrite (login_run u k v t s w Hu Hk).
  destruct (with_credentials_fields u k t s) as (Eu & Ek & Es & Ec & Eca & E4).
  rewrite (login_session_run v _ w u k Eu Ek).
  pose proof (get_api_entry_keeps_handles u v
                (_timeout (with_credentials u k t s))
                (Session.cache (with_credentials u k t s)) w) as Hh.
  destruct (SessionCache.get_api_entry _ _ _ _) as [[[]|e1] [c1 w1]];
    cbn [fst snd] in *; [|discriminate].
  unfold world_new_handle.
  destruct (SessionCache.get_entry_href c1 "login") as [address|e2] eqn:Ha;
    cbn [fst snd]; [|discriminate].
  unfold world_send. cbn [pending sent logged config_file handles].
  destruct (pending w1) as [|[r|] rest]; cbn [fst snd]; try discriminate.
  destruct (status_code r =? 200); cbn [fst snd]; [|discriminate].
  intros _. cbn. rewrite Hh.
  repeat split; try assumption. exists address. eexists. split; [exact Ha|].
  reflexivity.
Qed.

(** X20.  [login] with a version given, once the entry-point query has
    succeeded and [login] resolves: a reply with status 200 makes it
    return; any other status raises [SMCConnectionError] carrying the
    status code; an unreachable server raises the [RequestException]
    itself, not wrapped.  In the two failures [_session] is unchanged, and
    in all three cases the cache already holds the new directory and the
    [POST] was the last request sent. *)
Theorem login_rejected (u k : string) (v : pyvalue) (t : option Z)
        (s : Session) (w : World) (r2 : response) (j2 : json_doc)
        (es : list entry) (address : string) (o : outcome)
        (rest : list outcome) :
  u <> "" -> k <> "" -> v <> PNone ->
  pending w = Reply r2 :: o :: rest ->
  status_code r2 = 200 -> text r2 = Json j2 -> j_entry_point j2 = Some es ->
  SessionCache.get_entry_href (mkCache (Some es) v) "login" = Ok address ->
  let out := Session.login (Some u) (Some k) v t (s, w) in
  match o with
  | Reply r =>
      if status_code r =? 200 then fst out = Ok tt
      else fst out = Raise (SMCConnectionError (login_failed_note r))
           /\ _session (fst (snd out)) = _session s
  | Unreachable =>
      fst out = Raise RequestException
      /\ _session (fst (snd out)) = _session s
  end
  /\ Session.cache (fst (snd out)) = mkCache (Some es) v
  /\ exists older, sent (snd (snd out)) = POST address k :: older.
Proof.
  intros Hu Hk Hv Hp Hs Ht He Ha out. subst out.
  rewrite (login_run u k v t s w Hu Hk).
  destruct (with_credentials_fields u k t s) as (Eu & Ek & Es & Ec & Eca & E4).
  rewrite (login_session_run v _ w u k Eu Ek).
  rewrite (get_api_entry_replaces _ w u v _ r2 j2 es (o :: rest) Hv Hp Hs Ht He).
  unfold world_new_handle, world_after.
  cbn [pending sent logged config_file handles]. rewrite Ha.
  unfold world_send. cbn [pending sent logged config_file handles].
  destruct o as [r|]; [destruct (status_code r =? 200)|]; cbn;
    repeat split; try assumption; eexists; reflexivity.
Qed.

(** [session_1] with an unreachable server keeps its handle 0. *)
Lemma login_failure_keeps_session_witness :
  _session
    (fst (snd (Session.login (Some "http://smc:8082") (Some "K") (PStr "6.5")
                             None (session_1, mkWorld [] [] [] None 1))))
  = Some 0%nat
  /\ _connection
       (fst (snd (Session.login (Some "http://smc:8082") (Some "K")
                                (PStr "6.5") None
                                (session_1, mkWorld [] [] [] None 1))))
     = Some 0%nat.
Proof.
  apply (login_failure_keeps_session "http://smc:8082" "K" (PStr "6.5") None
           session_1 (mkWorld [] [] [] None 1)
           (SMCConnectionError [Lit "RequestException"])).
  - discriminate.
  - discriminate.
  - reflexivity.
Defined.

(** The handle bound is the next free one. *)
Lemma login_success_binds_witness :
  _session
    (fst (snd (Session.login (Some "http://smc:8082") (Some "K") (PStr "6.5")
                             None (Session.__init__, world_1))))
  = Some 1%nat.
Proof.
  exact (proj1 (login_success_binds "http://smc:8082" "K" (PStr "6.5") None
                  Session.__init__ world_1
                  ltac:(discriminate) ltac:(discriminate) eq_refl)).
Defined.

(** A 403 on the login request. *)
Lemma login_rejected_witness :
  fst (Session.login (Some "http://smc:8082") (Some "K") (PStr "6.5") None
         (Session.__init__,
          mkWorld [entry_points_reply; Reply (Response 403 NotJson)]
                  [] [] None 0))
  = Raise (SMCConnectionError (login_failed_note (Response 403 NotJson))).
Proof.
  exact (proj1 (proj1
    (login_rejected "http://smc:8082" "K" (PStr "6.5") None
       Session.__init__
       (mkWorld [entry_points_reply; Reply (Response 403 NotJson)]
                [] [] None 0)
       (Response 200 (Json (JsonDoc None (Some directory_3))))
       (JsonDoc None (Some directory_3)) directory_3
       "http://smc:8082/6.5/login" (Reply (Response 403 NotJson)) []
       ltac:(discriminate) ltac:(discriminate) ltac:(discriminate)
       eq_refl eq_refl eq_refl eq_refl eq_refl))).
Defined.

(** ** Logout and the session *)

(** X21.  [logout] never unbinds the session: whatever the outcome,
    [_session], [_connection], the address, the credential, the failure
    counter and the cache are as before. *)
Theorem logout_keeps_session (s : Session) (w : World) :
  let s' := fst (snd (Session.logout (s, w))) in
  _session s' = _session s
  /\ _connection s' = _connection s
  /\ _url s' = _url s /\ _api_key s' = _api_key s
  /\ http_401 s' = http_401 s
  /\ Session.cache s' = Session.cache s.
Proof.
  assert (Hstate : fst (snd (Session.logout (s, w))) = s
                   \/ fst (snd (Session.logout (s, w)))
                      = Session.set_cache (Session.cache s) s).
  { generalize (eq_refl (Session.logout (s, w))).
    generalize (Session.logout (s, w)) at 1 3 4. intros out Hout.
    revert Hout. unfold Session.logout. unfold bind at 1. cbn [self].
    destruct (_session s); [|intros ->; left; reflexivity].
    unfold bind at 1. rewrite on_cache_read.
    destruct (SessionCache.get_entry_href (Session.cache s) "logout");
      [|intros ->; right; reflexivity].
    unfold bind at 1. unfold send at 1.
    destruct (world_send _ w) as [[r|e] w']; [|intros ->; right; reflexivity].
    destruct (status_code r =? 204); [intros ->; right; reflexivity|].
    destruct (status_code r =? 401); intros ->; right; reflexivity. }
  cbn zeta. destruct Hstate as [-> | ->]; repeat split.
Qed.

(** ** A 401 before any login *)

Lemma http_unauthorized_no_session (s : Session) (w : World) :
  _session s = None ->
  Session.http_unauthorized (s, w)
  = (Raise (SMCConnectionError no_session_note), (Session.count_401 s, w)).
Proof.
  intros Hs. unfold Session.http_unauthorized, bind, set_self, self.
  cbn [Session.count_401 _session]. now rewrite Hs.
Qed.

(** X22.  On a session that was never established [http_unauthorized]
    fails with [SMCConnectionError], sends nothing, and still counts the
    failure; so after a later login that establishes the session, the
    first [http_unauthorized] is refused. *)
Theorem early_401_spends_retry (s : Session) (w : World)
        (url api_key : option string) (v : pyvalue) (t : option Z) :
  _session s = None -> 0 <= http_401 s ->
  let r1 := Session.http_unauthorized (s, w) in
  let r2 := Session.login url api_key v t (snd r1) in
  fst r1 = Raise (SMCConnectionError no_session_note)
  /\ snd r1 = (Session.count_401 s, w)
  /\ (is_Some (_session (fst (snd r2))) ->
      exists msg,
        fst (Session.http_unauthorized (snd r2))
        = Raise (SMCConnectionError msg)).
Proof.
  intros Hs Hc r1 r2. subst r2 r1.
  rewrite (http_unauthorized_no_session s w Hs). cbn [fst snd].
  split; [reflexivity|]. split; [reflexivity|].
  intros He. apply http_unauthorized_refused; [exact He|].
  rewrite login_keeps_counter. cbn. lia.
Qed.

(** A 401 handled before the first login of a fresh session. *)
Lemma early_401_spends_retry_witness :
  exists msg,
    fst (Session.http_unauthorized
           (snd (Session.login (Some "http://smc:8082") (Some "K")
                               (PStr "6.5") None
                               (snd (Session.http_unauthorized
                                       (Session.__init__, world_1))))))
    = Raise (SMCConnectionError msg).
Proof.
  apply (proj2 (proj2 (early_401_spends_retry Session.__init__ world_1
                         (Some "http://smc:8082") (Some "K") (PStr "6.5") None
                         eq_refl ltac:(reflexivity)))).
  exists 1%nat. reflexivity.
Defined.

(** ** Login with the stored settings *)

(** X23.  [login] without a non-empty address and credential, and
    without stored settings, raises [ConfigLoadError]; the session is left
    as it was and nothing is sent. *)
Theorem login_without_settings (url api_key : option string) (v : pyvalue)
        (t : option Z) (s : Session) (w : World) :
  Session.nonempty url && Session.nonempty api_key = false ->
  config_file w = None ->
  Session.login url api_key v t (s, w) = (Raise ConfigLoadError, (s, w)).
Proof.
  intros Hn Hc.
  assert (E : bind Session.login_stored
                (fun _ => Session.login_session v) (s, w)
              = (Raise ConfigLoadError, (s, w))).
  { unfold bind at 1. unfold Session.login_stored. unfold bind at 1.
    unfold load_from_file. now rewrite Hc. }
  unfold Session.login. destruct url as [u|], api_key as [k|]; try exact E.
  rewrite Hn. exact E.
Qed.

(** An address without credential, and no stored settings. *)
Lemma login_without_settings_witness :
  Session.login (Some "http://smc:8082") None PNone None
                (Session.__init__, mkWorld [] [] [] None 0)
  = (Raise ConfigLoadError, (Session.__init__, mkWorld [] [] [] None 0)).
Proof.
  exact (login_without_settings (Some "http://smc:8082") None PNone None
           Session.__init__ (mkWorld [] [] [] None 0) eq_refl eq_refl).
Defined.

Lemma get_api_entry_keeps_posts (url : string) (v : pyvalue) (t : Z)
      (c : SessionCache) (w : World) :
  posts (snd (snd (SessionCache.get_api_entry url v t (c, w)))) = posts w.
Proof.
  apply (wkeeps_get_api_entry (fun w' => posts w' = posts w)); auto.
  intros w0 u t0 H. unfold world_send.
  destruct (pending w0) as [|[r|] rest]; exact H.
Qed.

Lemma login_session_ok (v : pyvalue) (s : Session) (w : World)
      (url key : string) :
  _url s = Some url -> _api_key s = Some key ->
  fst (Session.login_session v (s, w)) = Ok tt ->
  let s' := fst (snd (Session.login_session v (s, w))) in
  let w' := snd (snd (Session.login_session v (s, w))) in
  _url s' = Some url /\ _api_key s' = Some key
  /\ _session s' = Some (handles w)
  /\ handles w' = S (handles w)
  /\ posts w' = S (posts w).
Proof.
  intros Eu Ek. rewrite (login_session_run v s w url key Eu Ek).
  pose proof (get_api_entry_keeps_handles url v (_timeout s)
                (Session.cache s) w) as Hh.
  pose proof (get_api_entry_keeps_posts url v (_timeout s)
                (Session.cache s) w) as Hp.
  destruct (SessionCache.get_api_entry _ _ _ _) as [[[]|e1] [c1 w1]];
    cbn [fst snd] in *; [|discriminate].
  unfold world_new_handle.
  destruct (SessionCache.get_entry_href c1 "login") as [address|e2];
    cbn [fst snd]; [|discriminate].
  unfold world_send. cbn [pending sent logged config_file handles].
  destruct (pending w1) as [|[r|] rest]; cbn [fst snd]; try discriminate.
  destruct (status_code r =? 200); cbn [fst snd]; [|discriminate].
  intros _. cbn. rewrite Hh. unfold posts in *. cbn. rewrite Hp.
  repeat split; assumption.
Qed.

Lemma login_stored_ok (s : Session) (w : World) :
  fst (Session.login_stored (s, w)) = Ok tt ->
  exists cu ck,
    _url (fst (snd (Session.login_stored (s, w)))) = Some cu
    /\ _api_key (fst (snd (Session.login_stored (s, w)))) = Some ck
    /\ handles (snd (snd (Session.login_stored (s, w)))) = S (handles w)
    /\ posts (snd (snd (Session.login_stored (s, w)))) = S (posts w).
Proof.
  assert (E : Session.login_stored (s, w)
              = match config_file w with
                | None => (Raise ConfigLoadError, (s, w))
                | Some cfg =>
                    match cfg_url cfg, cfg_api_key cfg with
                    | Some cu, Some ck =>
                        if Session.nonempty (cfg_url cfg)
                           && Session.nonempty (cfg_api_key cfg)
                        then Session.login_session (cfg_api_version cfg)
                               (with_credentials cu ck (cfg_timeout cfg) s, w)
                        else (Raise RecursionLimit, (s, w))
                    | _, _ => (Raise RecursionLimit, (s, w))
                    end
                end).
  { unfold Session.login_stored, bind, load_from_file.
    destruct (config_file w) as [cfg|]; [|reflexivity].
    destruct (cfg_url cfg) as [cu|], (cfg_api_key cfg) as [ck|];
      try reflexivity.
    destruct (Session.nonempty (Some cu) && Session.nonempty (Some ck));
      [|reflexivity].
    apply login_with_session. }
  rewrite E. clear E.
  destruct (config_file w) as [cfg|]; [|discriminate].
  destruct (cfg_url cfg) as [cu|]; [|discriminate].
  destruct (cfg_api_key cfg) as [ck|]; [|discriminate].
  destruct (Session.nonempty (Some cu) && Session.nonempty (Some ck));
    [|discriminate].
  intros Hok. exists cu, ck.
  destruct (with_credentials_fields cu ck (cfg_timeout cfg) s)
    as (Eu & Ek & _).
  destruct (login_session_ok (cfg_api_version cfg) _ w cu ck Eu Ek Hok)
    as (H1 & H2 & _ & H3 & H4).
  repeat split; assumption.
Qed.

(** X24.  A [login] without address and credential that returns has
    logged in twice: once with the stored settings and once more after
    it, so two login requests were sent, two transport handles were
    created, and the session is bound to the second. *)
Theorem login_stored_twice (v : pyvalue) (t : option Z) (s : Session)
        (w : World) :
  fst (Session.login None None v t (s, w)) = Ok tt ->
  let s' := fst (snd (Session.login None None v t (s, w))) in
  let w' := snd (snd (Session.login None None v t (s, w))) in
  posts w' = S (S (posts w))
  /\ handles w' = S (S (handles w))
  /\ _session s' = Some (S (handles w)).
Proof.
  change (Session.login None None v t (s, w))
    with (bind Session.login_stored
               (fun _ => Session.login_session v) (s, w)).
  unfold bind. pose proof (login_stored_ok s w) as H1.
  destruct (Session.login_stored (s, w)) as [[[]|e1] [s1 w1]];
    cbn [fst snd] in *; [|discriminate].
  destruct (H1 eq_refl) as (cu & ck & Eu1 & Ek1 & Hh1 & Hp1).
  intros Hok.
  destruct (login_session_ok v s1 w1 cu ck Eu1 Ek1 Hok)
    as (_ & _ & Hs2 & Hh2 & Hp2).
  cbn zeta. rewrite Hs2, Hh2, Hp2, Hh1, Hp1. repeat split.
Qed.

(** Stored settings and replies for two logins. *)
Lemma login_stored_twice_witness :
  posts (snd (snd (Session.login None None (PStr "6.5") None
                                 (Session.__init__, world_4))))
  = 2%nat.
Proof.
  exact (proj1 (login_stored_twice (PStr "6.5") None Session.__init__ world_4
                  eq_refl)).
Defined.
